(** * go-grpc-prometheus, server.go: registration of the default server metrics

    A shallow embedding of [server.go].  The package-level state
    ([DefaultServerMetrics], the registration map and its mutex) is a record
    [World]; the functions of the file are programs in a small effect monad
    [prog] whose actions are the operations the Go code performs on that state
    and on the [prom.Registerer] it is handed.  Programs are given a
    sequential semantics ([run]) and a two-thread interleaving semantics
    ([pstep]).

    Modelling conventions:
    - a [prom.Registerer] interface value is identified by an address
      ([Registerer]); what its methods do is left to an arbitrary
      implementation ([reg_Register], [reg_Unregister]) acting on the state
      of the registry object.  Both methods are taken to return: a registry
      that panics, or a nil interface value, is outside the model;
    - a [prom.Collector] interface value is identified by what it describes
      (its name, and for a histogram its bucket boundaries);
    - bucket boundaries are rationals; no arithmetic is done on them;
    - [trace] is ghost state: the calls the program made, in order. *)

From Stdlib Require Import QArith.
From stdpp Require Import base gmap sets list strings functions.

Close Scope Q_scope.

(* [set_solver] clears hypotheses that are not always there. *)
#[local] Set Warnings "-clear-no-such-hyp".

(** ** Data model *)

(** Go's [error] interface; [None] is [nil]. *)
Definition error : Type := string.

(** Address of the object behind a [prom.Registerer] interface value. *)
Definition Registerer : Type := positive.

(** [*prom.CounterVec]: a name and one value per tuple of label values. *)
Record CounterVec : Type := mkCounterVec {
  counterName : string;
  counterSeries : gmap (list string) nat
}.

(** [prom.HistogramOpts], as far as it is configured here. *)
Record HistogramOpts : Type := mkHistogramOpts {
  optsName : string;
  optsBuckets : list Q
}.

(** [*prom.HistogramVec]: the options it was built with. *)
Record HistogramVec : Type := mkHistogramVec {
  histogramName : string;
  histogramBuckets : list Q
}.

(** [prom.Collector]: the interface value handed to a registry. *)
Inductive Collector : Type :=
  | CounterCollector (name : string)
  | HistogramCollector (h : HistogramVec).

Definition collectCounter (c : CounterVec) : Collector :=
  CounterCollector (counterName c).

(** [ServerMetrics], whose declaration is in another file of the package: the
    fields that [server.go] reads, and the histogram options.  The pointer
    [serverHandledHistogram] is [None] when nil. *)
Record ServerMetrics : Type := mkServerMetrics {
  serverStartedCounter : CounterVec;
  serverHandledCounter : CounterVec;
  serverStreamMsgReceived : CounterVec;
  serverStreamMsgSent : CounterVec;
  serverHandledHistogramEnabled : bool;
  serverHandledHistogramOpts : HistogramOpts;
  serverHandledHistogram : option HistogramVec
}.

(** Modelled from the spec: the call types of an RPC method, and the service
    table of a [*grpc.Server] (its services, each with its methods); the gRPC
    library is not part of the sources. *)
Inductive CallType : Type := Unary | ClientStream | ServerStream | BidiStream.

Record MethodInfo : Type := mkMethodInfo {
  methodName : string;
  methodType : CallType
}.

Record ServiceInfo : Type := mkServiceInfo {
  serviceName : string;
  serviceMethods : list MethodInfo
}.

Record Server : Type := mkServer {
  serviceTable : list ServiceInfo
}.

(** ** The effect monad *)

Inductive prog (A : Type) : Type :=
  | Ret (a : A)
  | MuLock (k : prog A)
  | MuUnlock (k : prog A)
  | RegistrationHas (reg : Registerer) (k : bool → prog A)
  | RegistrationAdd (reg : Registerer) (k : prog A)
  | LoadMetrics (k : ServerMetrics → prog A)
  | StoreMetrics (m : ServerMetrics) (k : prog A)
  | CallRegister (reg : Registerer) (c : Collector) (k : option error → prog A)
  | CallUnregister (reg : Registerer) (c : Collector) (k : bool → prog A).

Arguments Ret {A} a.
Arguments MuLock {A} k.
Arguments MuUnlock {A} k.
Arguments RegistrationHas {A} reg k.
Arguments RegistrationAdd {A} reg k.
Arguments LoadMetrics {A} k.
Arguments StoreMetrics {A} m k.
Arguments CallRegister {A} reg c k.
Arguments CallUnregister {A} reg c k.

Fixpoint bind {A B : Type} (p : prog A) (f : A → prog B) : prog B :=
  match p with
  | Ret a => f a
  | MuLock k => MuLock (bind k f)
  | MuUnlock k => MuUnlock (bind k f)
  | RegistrationHas reg k => RegistrationHas reg (λ b, bind (k b) f)
  | RegistrationAdd reg k => RegistrationAdd reg (bind k f)
  | LoadMetrics k => LoadMetrics (λ m, bind (k m) f)
  | StoreMetrics m k => StoreMetrics m (bind k f)
  | CallRegister reg c k => CallRegister reg c (λ e, bind (k e) f)
  | CallUnregister reg c k => CallUnregister reg c (λ b, bind (k b) f)
  end.

#[global] Instance prog_ret : MRet prog := @Ret.
#[global] Instance prog_bind : MBind prog := λ A B f p, bind p f.

(** The single actions, as programs. *)
Definition lock : prog unit := MuLock (Ret tt).
Definition unlock : prog unit := MuUnlock (Ret tt).
Definition registrationHas (reg : Registerer) : prog bool :=
  RegistrationHas reg Ret.
Definition registrationAdd (reg : Registerer) : prog unit :=
  RegistrationAdd reg (Ret tt).
Definition loadMetrics : prog ServerMetrics := LoadMetrics Ret.
Definition storeMetrics (m : ServerMetrics) : prog unit := StoreMetrics m (Ret tt).
Definition register (reg : Registerer) (c : Collector) : prog (option error) :=
  CallRegister reg c Ret.
Definition unregister (reg : Registerer) (c : Collector) : prog bool :=
  CallUnregister reg c Ret.

(** ** server.go: RegisterDefaultServerMetricsWithRegisterer *)

(** The loop of the deferred function,
    [for i := 0; i < len(registeredMetrics); i++ { reg.Unregister(registeredMetrics[i]) }];
    [n] counts the iterations that remain. *)
Fixpoint unregisterFrom (reg : Registerer) (registeredMetrics : list Collector)
    (n i : nat) : prog unit :=
  match n with
  | O => mret tt
  | S n' =>
      match registeredMetrics !! i with
      | Some c => _ ← unregister reg c; unregisterFrom reg registeredMetrics n' (S i)
      | None => mret tt
      end
  end.

(** The deferred function; it reads the named result [err] and the slice
    [registeredMetrics] as they are when the function returns. *)
Definition deferred (reg : Registerer) (registeredMetrics : list Collector)
    (err : option error) : prog unit :=
  match err with
  | Some _ =>
      unregisterFrom reg registeredMetrics (length registeredMetrics) 0;;
      unlock
  | None =>
      registrationAdd reg;;
      unlock
  end.

(** Lines 74 to 101: the registrations, up to the [return] that ends them.
    The result is the slice [registeredMetrics] and the named result [err] at
    that [return]. *)
Definition registerAll (reg : Registerer) : prog (list Collector * option error) :=
  let registeredMetrics : list Collector := [] in
  m ← loadMetrics;
  err ← register reg (collectCounter (serverStartedCounter m));
  if err is Some _ then mret (registeredMetrics, err) else
  let registeredMetrics := registeredMetrics ++ [collectCounter (serverStartedCounter m)] in
  m ← loadMetrics;
  err ← register reg (collectCounter (serverHandledCounter m));
  if err is Some _ then mret (registeredMetrics, err) else
  let registeredMetrics := registeredMetrics ++ [collectCounter (serverHandledCounter m)] in
  m ← loadMetrics;
  err ← register reg (collectCounter (serverStreamMsgReceived m));
  if err is Some _ then mret (registeredMetrics, err) else
  let registeredMetrics := registeredMetrics ++ [collectCounter (serverStreamMsgReceived m)] in
  m ← loadMetrics;
  err ← register reg (collectCounter (serverStreamMsgSent m));
  if err is Some _ then mret (registeredMetrics, err) else
  let registeredMetrics := registeredMetrics ++ [collectCounter (serverStreamMsgSent m)] in
  m ← loadMetrics;
  match serverHandledHistogramEnabled m, serverHandledHistogram m with
  | true, Some h =>
      err ← register reg (HistogramCollector h);
      if err is Some _ then mret (registeredMetrics, err) else
      let registeredMetrics := registeredMetrics ++ [HistogramCollector h] in
      mret (registeredMetrics, err)
  | _, _ => mret (registeredMetrics, err)
  end.

(** [func RegisterDefaultServerMetricsWithRegisterer(reg prom.Registerer)
    (alreadyRegistered bool, err error)]. *)
Definition RegisterDefaultServerMetricsWithRegisterer (reg : Registerer)
    : prog (bool * option error) :=
  lock;;
  ok ← registrationHas reg;
  if ok : bool then
    unlock;;
    mret (true, None)
  else
    '(registeredMetrics, err) ← registerAll reg;
    deferred reg registeredMetrics err;;
    mret (false, err).

(** ** server.go: Register and EnableHandlingTimeHistogram

    Both call a method of [DefaultServerMetrics] that is defined in another
    file of the package. *)

(** Modelled from the spec: the label value of a call type; the spec names
    the four types and leaves their spelling open. *)
Definition callTypeLabel (t : CallType) : string :=
  match t with
  | Unary => "unary"
  | ClientStream => "client_stream"
  | ServerStream => "server_stream"
  | BidiStream => "bidi_stream"
  end.

(** Modelled from the spec: the label values of a method, its call type,
    service and name ([CallLabels]). *)
Definition callLabels (service : string) (mi : MethodInfo) : list string :=
  [callTypeLabel (methodType mi); service; methodName mi].

(** Modelled from the spec: the increment of the series of a counter under the
    given label values (the metrics library is not part of the sources); a
    series that does not exist starts at 0. *)
Definition counterAdd (labels : list string) (v : nat) (c : CounterVec) : CounterVec :=
  mkCounterVec (counterName c)
    (<[labels := default 0 (counterSeries c !! labels) + v]> (counterSeries c)).

(** Modelled from the spec: what [InitializeMetrics] does for one method.  It
    touches the started counter, and the handled counter under every status
    code, with a zero increment.  The list of status codes is a constant of
    the package and is taken as a parameter. *)
Definition preRegisterMethod (allCodes : list string) (service : string)
    (m : ServerMetrics) (mi : MethodInfo) : ServerMetrics :=
  mkServerMetrics
    (counterAdd (callLabels service mi) 0 (serverStartedCounter m))
    (foldl (λ c code, counterAdd (callLabels service mi ++ [code]) 0 c)
           (serverHandledCounter m) allCodes)
    (serverStreamMsgReceived m) (serverStreamMsgSent m)
    (serverHandledHistogramEnabled m) (serverHandledHistogramOpts m)
    (serverHandledHistogram m).

(** Modelled from the spec: the method [InitializeMetrics] of [ServerMetrics],
    which is not among the sources.  It goes through every (service, method,
    call type) of the server's service table. *)
Definition ServerMetrics_InitializeMetrics (allCodes : list string)
    (server : Server) (m : ServerMetrics) : ServerMetrics :=
  foldl (λ m svc,
           foldl (preRegisterMethod allCodes (serviceName svc)) m (serviceMethods svc))
        m (serviceTable server).

(** Modelled from the spec: the options of [EnableHandlingTimeHistogram]; the
    one the spec names overrides the bucket boundaries. *)
Inductive HistogramOption : Type :=
  | WithHistogramBuckets (buckets : list Q).

(** Modelled from the spec: an option applied to the histogram options. *)
Definition applyOption (o : HistogramOpts) (opt : HistogramOption) : HistogramOpts :=
  match opt with
  | WithHistogramBuckets buckets => mkHistogramOpts (optsName o) buckets
  end.

(** Modelled from the spec: the method [EnableHandlingTimeHistogram] of
    [ServerMetrics], which is not among the sources.  It turns the histogram
    on, building the instrument from the options; once the histogram is
    enabled its bucket configuration no longer changes. *)
Definition ServerMetrics_EnableHandlingTimeHistogram (opts : list HistogramOption)
    (m : ServerMetrics) : ServerMetrics :=
  if serverHandledHistogramEnabled m then m
  else
    let o := foldl applyOption (serverHandledHistogramOpts m) opts in
    mkServerMetrics
      (serverStartedCounter m) (serverHandledCounter m)
      (serverStreamMsgReceived m) (serverStreamMsgSent m)
      true o (Some (mkHistogramVec (optsName o) (optsBuckets o))).

(** A method called on the package variable [DefaultServerMetrics]. *)
Definition onDefaultServerMetrics (method : ServerMetrics → ServerMetrics)
    : prog unit :=
  m ← loadMetrics;
  storeMetrics (method m).

(** [func Register(server *grpc.Server)]. *)
Definition Register (allCodes : list string) (server : Server) : prog unit :=
  onDefaultServerMetrics (ServerMetrics_InitializeMetrics allCodes server).

(** [func EnableHandlingTimeHistogram(opts ...HistogramOption)]. *)
Definition EnableHandlingTimeHistogram (opts : list HistogramOption) : prog unit :=
  onDefaultServerMetrics (ServerMetrics_EnableHandlingTimeHistogram opts).

(** ** Semantics *)

(** Ghost trace: the calls made, tagged with the calling thread. *)
Inductive Event : Type :=
  | EvLock (tid : nat)
  | EvUnlock (tid : nat)
  | EvRegister (tid : nat) (reg : Registerer) (c : Collector) (res : option error)
  | EvUnregister (tid : nat) (reg : Registerer) (c : Collector) (res : bool).

(** What running a program to its end can give: a result, a thread parked
    forever in [Lock] on a held mutex, or the runtime's fatal error for
    [Unlock] on a mutex that is not held. *)
Inductive Outcome (W A : Type) : Type :=
  | Finished (a : A) (w : W)
  | Blocked (w : W)
  | Fault (w : W).

Arguments Finished {W A} a w.
Arguments Blocked {W A} w.
Arguments Fault {W A} w.

(** The package-level variables, the registry objects, and the trace. *)
Record World (RegState : Type) : Type := mkWorld {
  DefaultServerMetrics : ServerMetrics;
  defaultServerMetricsPromRegistration : gset Registerer;
  defaultServerMetricsPromRegistrationMu : bool;
  registries : Registerer → RegState;
  trace : list Event
}.

Arguments mkWorld {RegState} _ _ _ _ _.
Arguments DefaultServerMetrics {RegState} _.
Arguments defaultServerMetricsPromRegistration {RegState} _.
Arguments defaultServerMetricsPromRegistrationMu {RegState} _.
Arguments registries {RegState} _ _.
Arguments trace {RegState} _.

(** One action of a thread. *)
Inductive StepResult (RegState A : Type) : Type :=
  | SNext (p : prog A) (w : World RegState)
  | SDone (a : A)
  | SBlocked
  | SFault.

Arguments SNext {RegState A} p w.
Arguments SDone {RegState A} a.
Arguments SBlocked {RegState A}.
Arguments SFault {RegState A}.

(** The specification's fixed order of the instruments: the four counters,
    then the histogram when it is enabled and present.  [registerAll] is
    compared with it in [run_registerAll]. *)
Definition instruments (m : ServerMetrics) : list Collector :=
  [ collectCounter (serverStartedCounter m);
    collectCounter (serverHandledCounter m);
    collectCounter (serverStreamMsgReceived m);
    collectCounter (serverStreamMsgSent m) ] ++
  match serverHandledHistogramEnabled m, serverHandledHistogram m with
  | true, Some h => [HistogramCollector h]
  | _, _ => []
  end.

(** The four counters, in that order. *)
Definition counters (m : ServerMetrics) : list Collector :=
  [ collectCounter (serverStartedCounter m);
    collectCounter (serverHandledCounter m);
    collectCounter (serverStreamMsgReceived m);
    collectCounter (serverStreamMsgSent m) ].

Arguments instruments : simpl never.
Arguments counters : simpl never.

(** Reading the trace. *)
Definition registerOk (tid : nat) (reg : Registerer) (c : Collector) : Event :=
  EvRegister tid reg c None.

Definition isRegistryCall (ev : Event) : bool :=
  match ev with
  | EvRegister _ _ _ _ | EvUnregister _ _ _ _ => true
  | _ => false
  end.

Definition isLock (ev : Event) : bool :=
  match ev with EvLock _ => true | _ => false end.

Definition isUnlock (ev : Event) : bool :=
  match ev with EvUnlock _ => true | _ => false end.

(** The [Register] calls of a trace: the collector and what the call returned. *)
Fixpoint registerCalls (evs : list Event) : list (Collector * option error) :=
  match evs with
  | [] => []
  | EvRegister _ _ c res :: evs' => (c, res) :: registerCalls evs'
  | _ :: evs' => registerCalls evs'
  end.

(** The collectors a trace unregisters, in order. *)
Fixpoint unregisterCalls (evs : list Event) : list Collector :=
  match evs with
  | [] => []
  | EvUnregister _ _ c _ :: evs' => c :: unregisterCalls evs'
  | _ :: evs' => unregisterCalls evs'
  end.

Section Semantics.

(** The state of a registry object and the two methods of [prom.Registerer]. *)
Context {RegState : Type}.
Variable reg_Register : Collector → RegState → option error * RegState.
Variable reg_Unregister : Collector → RegState → bool * RegState.

Definition setMu (b : bool) (ev : Event) (w : World RegState) : World RegState :=
  mkWorld (DefaultServerMetrics w) (defaultServerMetricsPromRegistration w) b
          (registries w) (trace w ++ [ev]).

Definition addRegistration (reg : Registerer) (w : World RegState) : World RegState :=
  mkWorld (DefaultServerMetrics w)
          ({[reg]} ∪ defaultServerMetricsPromRegistration w)
          (defaultServerMetricsPromRegistrationMu w) (registries w) (trace w).

Definition setMetrics (m : ServerMetrics) (w : World RegState) : World RegState :=
  mkWorld m (defaultServerMetricsPromRegistration w)
          (defaultServerMetricsPromRegistrationMu w) (registries w) (trace w).

Definition setRegistry (reg : Registerer) (s : RegState) (ev : Event)
    (w : World RegState) : World RegState :=
  mkWorld (DefaultServerMetrics w) (defaultServerMetricsPromRegistration w)
          (defaultServerMetricsPromRegistrationMu w)
          (<[reg := s]> (registries w)) (trace w ++ [ev]).

Definition tstep {A : Type} (tid : nat) (p : prog A) (w : World RegState)
    : StepResult RegState A :=
  match p with
  | Ret a => SDone a
  | MuLock k =>
      if defaultServerMetricsPromRegistrationMu w then SBlocked
      else SNext k (setMu true (EvLock tid) w)
  | MuUnlock k =>
      if defaultServerMetricsPromRegistrationMu w
      then SNext k (setMu false (EvUnlock tid) w)
      else SFault
  | RegistrationHas reg k =>
      SNext (k (bool_decide (reg ∈ defaultServerMetricsPromRegistration w))) w
  | RegistrationAdd reg k => SNext k (addRegistration reg w)
  | LoadMetrics k => SNext (k (DefaultServerMetrics w)) w
  | StoreMetrics m k => SNext k (setMetrics m w)
  | CallRegister reg c k =>
      let '(err, s) := reg_Register c (registries w reg) in
      SNext (k err) (setRegistry reg s (EvRegister tid reg c err) w)
  | CallUnregister reg c k =>
      let '(b, s) := reg_Unregister c (registries w reg) in
      SNext (k b) (setRegistry reg s (EvUnregister tid reg c b) w)
  end.

(** A thread run alone to its end. *)
Fixpoint run {A : Type} (tid : nat) (p : prog A) (w : World RegState)
    : Outcome (World RegState) A :=
  match p with
  | Ret a => Finished a w
  | MuLock k =>
      if defaultServerMetricsPromRegistrationMu w then Blocked w
      else run tid k (setMu true (EvLock tid) w)
  | MuUnlock k =>
      if defaultServerMetricsPromRegistrationMu w
      then run tid k (setMu false (EvUnlock tid) w)
      else Fault w
  | RegistrationHas reg k =>
      run tid (k (bool_decide (reg ∈ defaultServerMetricsPromRegistration w))) w
  | RegistrationAdd reg k => run tid k (addRegistration reg w)
  | LoadMetrics k => run tid (k (DefaultServerMetrics w)) w
  | StoreMetrics m k => run tid k (setMetrics m w)
  | CallRegister reg c k =>
      let '(err, s) := reg_Register c (registries w reg) in
      run tid (k err) (setRegistry reg s (EvRegister tid reg c err) w)
  | CallUnregister reg c k =>
      let '(b, s) := reg_Unregister c (registries w reg) in
      run tid (k b) (setRegistry reg s (EvUnregister tid reg c b) w)
  end.

(** Two threads sharing the world; at each step either one performs its next
    action.  A thread is its identifier and what it has left to run. *)
Definition Pool (A : Type) : Type :=
  (World RegState * (nat * prog A) * (nat * prog A))%type.

Inductive pstep {A : Type} : Pool A → Pool A → Prop :=
  | pstep_left w w' t1 p1 p1' T2 :
      tstep t1 p1 w = SNext p1' w' →
      pstep (w, (t1, p1), T2) (w', (t1, p1'), T2)
  | pstep_right w w' T1 t2 p2 p2' :
      tstep t2 p2 w = SNext p2' w' →
      pstep (w, T1, (t2, p2)) (w', T1, (t2, p2')).

Definition psteps {A : Type} : Pool A → Pool A → Prop := rtc pstep.

(** ** What the specification says, as functions *)

(** Register the collectors of a list one at a time and stop at the first
    failure: the collectors registered, the error if any, the world after. *)
Fixpoint registerSeq (tid : nat) (reg : Registerer) (cs : list Collector)
    (w : World RegState) : list Collector * option error * World RegState :=
  match cs with
  | [] => ([], None, w)
  | c :: cs' =>
      let '(err, s) := reg_Register c (registries w reg) in
      let w' := setRegistry reg s (EvRegister tid reg c err) w in
      match err with
      | Some e => ([], Some e, w')
      | None =>
          let '(registered, err', w'') := registerSeq tid reg cs' w' in
          (c :: registered, err', w'')
      end
  end.

(** Unregister the collectors of a list, first to last. *)
Fixpoint unregisterSeq (tid : nat) (reg : Registerer) (cs : list Collector)
    (w : World RegState) : World RegState :=
  match cs with
  | [] => w
  | c :: cs' =>
      let '(b, s) := reg_Unregister c (registries w reg) in
      unregisterSeq tid reg cs' (setRegistry reg s (EvUnregister tid reg c b) w)
  end.

(** [registerInto] as the specification describes it: under the lock, return
    at once when the registry is recorded; otherwise register the instruments
    in order, and either record the registry or roll back. *)
Definition registerInto (tid : nat) (reg : Registerer) (w : World RegState)
    : bool * option error * World RegState :=
  let w0 := setMu true (EvLock tid) w in
  if bool_decide (reg ∈ defaultServerMetricsPromRegistration w) then
    (true, None, setMu false (EvUnlock tid) w0)
  else
    let '(registered, err, w1) :=
      registerSeq tid reg (instruments (DefaultServerMetrics w)) w0 in
    match err with
    | Some e =>
        (false, Some e,
         setMu false (EvUnlock tid) (unregisterSeq tid reg registered w1))
    | None =>
        (false, None, setMu false (EvUnlock tid) (addRegistration reg w1))
    end.

(** A registry keeps its contract when, for some notion of "this collector is
    registered": a successful [Register] adds the collector and nothing else,
    a failed one changes nothing, and [Unregister] removes the collector and
    nothing else. *)
Record LawfulRegistry (holds : RegState → Collector → Prop) : Prop := {
  register_ok : ∀ c s s', reg_Register c s = (None, s') →
    ∀ c', holds s' c' ↔ c' = c ∨ holds s c';
  register_err : ∀ c s e s', reg_Register c s = (Some e, s') →
    ∀ c', holds s' c' ↔ holds s c';
  unregister_removes : ∀ c s b s', reg_Unregister c s = (b, s') →
    ∀ c', holds s' c' ↔ c' ≠ c ∧ holds s c'
}.

(** The three ways through [RegisterDefaultServerMetricsWithRegisterer] from
    a world [w] with the mutex free: what is returned and the world after. *)
Inductive Path (tid : nat) (reg : Registerer) (w : World RegState)
    : bool * option error → World RegState → Prop :=
  | path_already :
      reg ∈ defaultServerMetricsPromRegistration w →
      Path tid reg w (true, None)
        (mkWorld (DefaultServerMetrics w) (defaultServerMetricsPromRegistration w)
                 false (registries w) (trace w ++ [EvLock tid; EvUnlock tid]))
  | path_rollback pre c post e bs w' :
      reg ∉ defaultServerMetricsPromRegistration w →
      instruments (DefaultServerMetrics w) = pre ++ c :: post →
      length bs = length pre →
      trace w' = trace w ++ [EvLock tid] ++ (registerOk tid reg <$> pre)
                 ++ [EvRegister tid reg c (Some e)]
                 ++ zip_with (EvUnregister tid reg) pre bs ++ [EvUnlock tid] →
      DefaultServerMetrics w' = DefaultServerMetrics w →
      defaultServerMetricsPromRegistration w' = defaultServerMetricsPromRegistration w →
      defaultServerMetricsPromRegistrationMu w' = false →
      (∀ r, r ≠ reg → registries w' r = registries w r) →
      (∀ holds, LawfulRegistry holds →
         ∀ c', holds (registries w' reg) c' ↔
               (c' ∉ pre) ∧ holds (registries w reg) c') →
      Path tid reg w (false, Some e) w'
  | path_recorded w' :
      reg ∉ defaultServerMetricsPromRegistration w →
      trace w' = trace w ++ [EvLock tid]
                 ++ (registerOk tid reg <$> instruments (DefaultServerMetrics w))
                 ++ [EvUnlock tid] →
      DefaultServerMetrics w' = DefaultServerMetrics w →
      defaultServerMetricsPromRegistration w'
        = {[reg]} ∪ defaultServerMetricsPromRegistration w →
      defaultServerMetricsPromRegistrationMu w' = false →
      (∀ r, r ≠ reg → registries w' r = registries w r) →
      (∀ holds, LawfulRegistry holds →
         ∀ c', holds (registries w' reg) c' ↔
               c' ∈ instruments (DefaultServerMetrics w) ∨ holds (registries w reg) c') →
      Path tid reg w (false, None) w'.

(** The operations of [server.go] on the package state. *)
Inductive Op : Type :=
  | OpRegister (server : Server)
  | OpEnableHandlingTimeHistogram (opts : list HistogramOption)
  | OpRegisterDefaultServerMetricsWithRegisterer (reg : Registerer).

Definition worldOf {A : Type} (o : Outcome (World RegState) A) : World RegState :=
  match o with Finished _ w => w | Blocked w => w | Fault w => w end.

(** The world an operation of thread [tid] leaves. *)
Definition execOp (allCodes : list string) (w : World RegState) (op : nat * Op)
    : World RegState :=
  match op with
  | (tid, OpRegister server) => worldOf (run tid (Register allCodes server) w)
  | (tid, OpEnableHandlingTimeHistogram opts) =>
      worldOf (run tid (EnableHandlingTimeHistogram opts) w)
  | (tid, OpRegisterDefaultServerMetricsWithRegisterer reg) =>
      worldOf (run tid (RegisterDefaultServerMetricsWithRegisterer reg) w)
  end.

End Semantics.

(** ** Touching counters *)

(** [c'] is [c] after some zero increments: every series of [c] is there with
    its value, and a series that is new has the value 0. *)
Definition counterTouched (c c' : CounterVec) : Prop :=
  counterName c' = counterName c ∧
  ∀ k, counterSeries c' !! k = counterSeries c !! k ∨
       (counterSeries c !! k = None ∧ counterSeries c' !! k = Some 0).

Definition metricsTouched (m m' : ServerMetrics) : Prop :=
  counterTouched (serverStartedCounter m) (serverStartedCounter m') ∧
  counterTouched (serverHandledCounter m) (serverHandledCounter m') ∧
  serverStreamMsgReceived m' = serverStreamMsgReceived m ∧
  serverStreamMsgSent m' = serverStreamMsgSent m ∧
  serverHandledHistogramEnabled m' = serverHandledHistogramEnabled m ∧
  serverHandledHistogramOpts m' = serverHandledHistogramOpts m ∧
  serverHandledHistogram m' = serverHandledHistogram m.

(** The series of a method exist: started, and handled under every code. *)
Definition covered (allCodes : list string) (m : ServerMetrics)
    (service : string) (mi : MethodInfo) : Prop :=
  is_Some (counterSeries (serverStartedCounter m) !! callLabels service mi) ∧
  ∀ code, code ∈ allCodes →
    is_Some (counterSeries (serverHandledCounter m) !! (callLabels service mi ++ [code])).

(** ** The mutual-exclusion region *)

(** A program that neither locks nor unlocks. *)
Inductive lockfree {A : Type} : prog A → Prop :=
  | lockfree_ret a : lockfree (Ret a)
  | lockfree_has reg k : (∀ b, lockfree (k b)) → lockfree (RegistrationHas reg k)
  | lockfree_add reg k : lockfree k → lockfree (RegistrationAdd reg k)
  | lockfree_load k : (∀ m, lockfree (k m)) → lockfree (LoadMetrics k)
  | lockfree_store m k : lockfree k → lockfree (StoreMetrics m k)
  | lockfree_register reg c k :
      (∀ e, lockfree (k e)) → lockfree (CallRegister reg c k)
  | lockfree_unregister reg c k :
      (∀ b, lockfree (k b)) → lockfree (CallUnregister reg c k).

(** What a thread has left to run while it holds the mutex: actions that
    neither lock nor unlock, then one [Unlock], after which it returns. *)
Inductive inRegion {A : Type} : prog A → Prop :=
  | inRegion_unlock a : inRegion (MuUnlock (Ret a))
  | inRegion_has reg k : (∀ b, inRegion (k b)) → inRegion (RegistrationHas reg k)
  | inRegion_add reg k : inRegion k → inRegion (RegistrationAdd reg k)
  | inRegion_load k : (∀ m, inRegion (k m)) → inRegion (LoadMetrics k)
  | inRegion_store m k : inRegion k → inRegion (StoreMetrics m k)
  | inRegion_register reg c k :
      (∀ e, inRegion (k e)) → inRegion (CallRegister reg c k)
  | inRegion_unregister reg c k :
      (∀ b, inRegion (k b)) → inRegion (CallUnregister reg c k).

(** A thread all of whose actions lie in one region: it starts with [Lock]. *)
Inductive oneRegion {A : Type} : prog A → Prop :=
  | oneRegion_lock k : inRegion k → oneRegion (MuLock k).

(** A thread that is before its region or has returned. *)
Definition idle {A : Type} (p : prog A) : Prop := oneRegion p ∨ ∃ a, p = Ret a.

(** A pool in which at most one thread is in its region, and then the mutex
    is held. *)
Definition exclusive {RegState A : Type} (X : Pool (RegState := RegState) A) : Prop :=
  match X with
  | (w, (_, p1), (_, p2)) =>
      (defaultServerMetricsPromRegistrationMu w = false ∧ idle p1 ∧ idle p2) ∨
      (defaultServerMetricsPromRegistrationMu w = true ∧ inRegion p1 ∧ idle p2) ∨
      (defaultServerMetricsPromRegistrationMu w = true ∧ idle p1 ∧ inRegion p2)
  end.

(** The pool with its two threads exchanged. *)
Definition swap {RegState A : Type} (X : Pool (RegState := RegState) A) : Pool A :=
  match X with (w, T1, T2) => (w, T2, T1) end.

(** ** A registry for tests

    A registry in the manner of [prom.NewRegistry()], reduced to what
    registration needs: the collectors it holds, in order of registration.
    [Register] refuses a collector whose name is taken; [Unregister] removes
    the collector it is given. *)

#[global] Instance Q_eq_dec : EqDecision Q.
Proof. solve_decision. Defined.
#[global] Instance HistogramVec_eq_dec : EqDecision HistogramVec.
Proof. solve_decision. Defined.
#[global] Instance Collector_eq_dec : EqDecision Collector.
Proof. solve_decision. Defined.

Definition collectorName (c : Collector) : string :=
  match c with
  | CounterCollector name => name
  | HistogramCollector h => histogramName h
  end.

Definition TestRegistry : Type := list Collector.

Definition nameTaken (name : string) (s : TestRegistry) : bool :=
  bool_decide (name ∈ (collectorName <$> s)).

Definition test_Register (c : Collector) (s : TestRegistry)
    : option error * TestRegistry :=
  if nameTaken (collectorName c) s
  then (Some "duplicate metrics collector registration attempted"%string, s)
  else (None, s ++ [c]).

Definition test_Unregister (c : Collector) (s : TestRegistry)
    : bool * TestRegistry :=
  (bool_decide (c ∈ s), filter (λ c', c' ≠ c) s).

Module Fixture.

Definition started : CounterVec := mkCounterVec "grpc_server_started_total" ∅.
Definition handled : CounterVec := mkCounterVec "grpc_server_handled_total" ∅.
Definition received : CounterVec := mkCounterVec "grpc_server_msg_received_total" ∅.
Definition sent : CounterVec := mkCounterVec "grpc_server_msg_sent_total" ∅.
Definition defaultOpts : HistogramOpts :=
  mkHistogramOpts "grpc_server_handling_seconds" [Qmake 5 1000; Qmake 1 1; Qmake 10 1].
Definition buckets : list Q := [Qmake 1 100; Qmake 1 10; Qmake 1 1].
(** The histogram that enabling with [buckets] builds. *)
Definition histogram : HistogramVec :=
  mkHistogramVec "grpc_server_handling_seconds" buckets.

(** The metric set as constructed, with its histogram enabled, and in the odd
    state in which the flag is set and the pointer is nil. *)
Definition metrics4 : ServerMetrics :=
  mkServerMetrics started handled received sent false defaultOpts None.
Definition metrics5 : ServerMetrics :=
  ServerMetrics_EnableHandlingTimeHistogram [WithHistogramBuckets buckets] metrics4.
Definition metricsNil : ServerMetrics :=
  mkServerMetrics started handled received sent true defaultOpts None.

(** A world with the mutex free, every registry in the same state. *)
Definition world (m : ServerMetrics) (record : gset Registerer)
    (s : TestRegistry) : World TestRegistry :=
  mkWorld m record false (λ _, s) [].

Definition call (tid : nat) (reg : Registerer) (w : World TestRegistry)
    : Outcome (World TestRegistry) (bool * option error) :=
  run test_Register test_Unregister tid
    (RegisterDefaultServerMetricsWithRegisterer reg) w.

Definition after {A : Type} (o : Outcome (World TestRegistry) A)
    : World TestRegistry := worldOf o.

(** A collector of some other package that took the name of the third
    instrument. *)
Definition foreign : Collector :=
  HistogramCollector (mkHistogramVec "grpc_server_msg_received_total" []).

Definition reg1 : Registerer := 1%positive.
Definition reg2 : Registerer := 2%positive.

(** A server with a unary method and a server-streaming one. *)
Definition server : Server :=
  mkServer [mkServiceInfo "test.Service"
              [mkMethodInfo "UnaryA" Unary; mkMethodInfo "StreamB" ServerStream]].

Definition allCodes : list string := ["OK"; "Canceled"; "Unknown"]%string.

End Fixture.

(** ** Uses of the package, one after the other *)

(** A [Register] or [Unregister] call made on the registry [reg]. *)
Definition onRegistry (reg : Registerer) (ev : Event) : bool :=
  match ev with
  | EvRegister _ r _ _ | EvUnregister _ r _ _ => bool_decide (r = reg)
  | _ => false
  end.

(** One use of the package: a method called on [DefaultServerMetrics], which
    is all that [Register] and [EnableHandlingTimeHistogram] do (the method is
    any function on the metric set), or a registration. *)
Inductive Invocation : Type :=
  | InvokeMethod (method : ServerMetrics → ServerMetrics)
  | InvokeRegistration (reg : Registerer).

Definition invocation (i : Invocation) : prog unit :=
  match i with
  | InvokeMethod method => onDefaultServerMetrics method
  | InvokeRegistration reg =>
      _ ← RegisterDefaultServerMetricsWithRegisterer reg; mret tt
  end.

(** The result of a call that has registered the instruments and recorded the
    registry: [alreadyRegistered = false] and a nil error. *)
Definition hasRegistered (r : bool * option error) : bool :=
  match r with (false, None) => true | _ => false end.

Definition isRegistration (inv : nat * Invocation) : bool :=
  match inv with (_, InvokeRegistration _) => true | _ => false end.

Section Invocations.

Context {RegState : Type}.
Variable reg_Register : Collector → RegState → option error * RegState.
Variable reg_Unregister : Collector → RegState → bool * RegState.

(** Uses by threads, each run to its end before the next starts; a use that
    does not return ends the sequence. *)
Fixpoint invokeAll (invs : list (nat * Invocation)) (w : World RegState)
    : Outcome (World RegState) unit :=
  match invs with
  | [] => Finished tt w
  | (tid, i) :: rest =>
      match run reg_Register reg_Unregister tid (invocation i) w with
      | Finished _ w' => invokeAll rest w'
      | Blocked w' => Blocked w'
      | Fault w' => Fault w'
      end
  end.

(** The record is sound for a notion of "this registry holds this collector":
    every recorded registry holds the four counters of the metric set. *)
Definition recordSound (holds : RegState → Collector → Prop) (w : World RegState)
    : Prop :=
  ∀ reg c, reg ∈ defaultServerMetricsPromRegistration w →
           c ∈ counters (DefaultServerMetrics w) →
           holds (registries w reg) c.

End Invocations.

(** The methods among the uses leave the four counters the collectors they
    were (they may change their series, and the histogram). *)
Definition methodsKeepCounters (invs : list (nat * Invocation)) : Prop :=
  ∀ tid method, (tid, InvokeMethod method) ∈ invs →
                ∀ m, counters (method m) = counters m.

(** * Proofs *)

(** ** The program against the specification's function *)

Section Sequential.

Context {RegState : Type}.
Variable reg_Register : Collector → RegState → option error * RegState.
Variable reg_Unregister : Collector → RegState → bool * RegState.

Abbreviation run' := (run reg_Register reg_Unregister).
Abbreviation registerSeq' := (registerSeq reg_Register).
Abbreviation unregisterSeq' := (unregisterSeq reg_Unregister).
Abbreviation registerInto' := (registerInto reg_Register reg_Unregister).

Lemma run_bind {A B : Type} tid (p : prog A) (f : A → prog B) (w : World RegState) :
  run' tid (p ≫= f) w =
  match run' tid p w with
  | Finished a w' => run' tid (f a) w'
  | Blocked w' => Blocked w'
  | Fault w' => Fault w'
  end.
Proof.
  unfold mbind, prog_bind. revert w.
  induction p as [a|k IH|k IH|reg k IH|reg k IH|k IH|m k IH|reg c k IH|reg c k IH];
    intros w; simpl; try done.
  - destruct (defaultServerMetricsPromRegistrationMu w); [done | apply IH].
  - destruct (defaultServerMetricsPromRegistrationMu w); [apply IH | done].
  - destruct (reg_Register c (registries w reg)) as [err s]. apply IH.
  - destruct (reg_Unregister c (registries w reg)) as [b s]. apply IH.
Qed.

Lemma registerSeq_frame tid reg cs (w : World RegState) :
  let '(_, _, w') := registerSeq' tid reg cs w in
  DefaultServerMetrics w' = DefaultServerMetrics w ∧
  defaultServerMetricsPromRegistration w' = defaultServerMetricsPromRegistration w ∧
  defaultServerMetricsPromRegistrationMu w' = defaultServerMetricsPromRegistrationMu w.
Proof.
  revert w. induction cs as [|c cs IH]; intros w; simpl; [done|].
  destruct (reg_Register c (registries w reg)) as [[e|] s]; [done|].
  specialize (IH (setRegistry reg s (EvRegister tid reg c None) w)).
  destruct (registerSeq _ tid reg cs _) as [[registered err'] w'']. exact IH.
Qed.

Lemma unregisterSeq_frame tid reg cs (w : World RegState) :
  DefaultServerMetrics (unregisterSeq' tid reg cs w) = DefaultServerMetrics w ∧
  defaultServerMetricsPromRegistration (unregisterSeq' tid reg cs w)
    = defaultServerMetricsPromRegistration w ∧
  defaultServerMetricsPromRegistrationMu (unregisterSeq' tid reg cs w)
    = defaultServerMetricsPromRegistrationMu w.
Proof.
  revert w. induction cs as [|c cs IH]; intros w; simpl; [done|].
  destruct (reg_Unregister c (registries w reg)) as [b s].
  destruct (IH (setRegistry reg s (EvUnregister tid reg c b) w)) as (-> & -> & ->).
  done.
Qed.

Lemma run_unregisterFrom tid reg (l : list Collector) n i (w : World RegState) :
  n = length l - i →
  run' tid (unregisterFrom reg l n i) w
  = Finished tt (unregisterSeq' tid reg (drop i l) w).
Proof.
  revert i w. induction n as [|n IH]; intros i w Hn; simpl.
  - rewrite drop_ge by lia. done.
  - destruct (l !! i) as [c|] eqn:Hc.
    + rewrite (drop_S _ _ _ Hc). simpl.
      destruct (reg_Unregister c (registries w reg)) as [b s].
      apply IH. lia.
    + apply lookup_ge_None in Hc. lia.
Qed.

Lemma run_registerAll tid reg (w : World RegState) :
  run' tid (registerAll reg) w =
  let '(registered, err, w') :=
    registerSeq' tid reg (instruments (DefaultServerMetrics w)) w in
  Finished (registered, err) w'.
Proof.
  unfold registerAll, instruments. simpl.
  destruct (reg_Register _ (registries w reg)) as [[e1|] s1]; [done|]. simpl.
  destruct (reg_Register _ (<[reg:=s1]> (registries w) reg)) as [[e2|] s2]; [done|]. simpl.
  destruct (reg_Register _ (<[reg:=s2]> _ reg)) as [[e3|] s3]; [done|]. simpl.
  destruct (reg_Register _ (<[reg:=s3]> _ reg)) as [[e4|] s4]; [done|]. simpl.
  destruct (serverHandledHistogramEnabled (DefaultServerMetrics w)),
    (serverHandledHistogram (DefaultServerMetrics w)) as [h|]; simpl; try done.
  destruct (reg_Register _ (<[reg:=s4]> _ reg)) as [[e5|] s5]; done.
Qed.

(** The program computes what the specification's function describes; a call
    on a held mutex waits. *)
Lemma run_RegisterDefaultServerMetricsWithRegisterer tid reg (w : World RegState) :
  defaultServerMetricsPromRegistrationMu w = false →
  run' tid (RegisterDefaultServerMetricsWithRegisterer reg) w =
  let '(alreadyRegistered, err, w') := registerInto' tid reg w in
  Finished (alreadyRegistered, err) w'.
Proof.
  intros Hmu. unfold RegisterDefaultServerMetricsWithRegisterer, registerInto.
  rewrite run_bind. unfold lock at 1. cbn [run]. rewrite Hmu.
  rewrite run_bind. unfold registrationHas at 1. cbn [run].
  change (defaultServerMetricsPromRegistration (setMu true (EvLock tid) w))
    with (defaultServerMetricsPromRegistration w).
  destruct (bool_decide _).
  { rewrite run_bind. unfold unlock. cbn [run]. done. }
  rewrite run_bind, run_registerAll.
  change (DefaultServerMetrics (setMu true (EvLock tid) w))
    with (DefaultServerMetrics w).
  pose proof (registerSeq_frame tid reg
    (instruments (DefaultServerMetrics w)) (setMu true (EvLock tid) w)) as Hfr.
  destruct (registerSeq _ _ _ _ _) as [[registered err] w1].
  destruct Hfr as (_ & _ & Hmu1). cbn in Hmu1.
  rewrite run_bind. unfold deferred. destruct err as [e|].
  - rewrite run_bind, run_unregisterFrom by lia. rewrite drop_0.
    unfold unlock. cbn [run].
    destruct (unregisterSeq_frame tid reg registered w1) as (_ & _ & ->).
    rewrite Hmu1. done.
  - rewrite run_bind. unfold registrationAdd, unlock. cbn [run].
    cbn [addRegistration defaultServerMetricsPromRegistrationMu].
    rewrite Hmu1. done.
Qed.

Lemma run_held tid reg (w : World RegState) :
  defaultServerMetricsPromRegistrationMu w = true →
  run' tid (RegisterDefaultServerMetricsWithRegisterer reg) w = Blocked w.
Proof.
  intros Hmu. unfold RegisterDefaultServerMetricsWithRegisterer.
  rewrite run_bind. unfold lock. cbn [run]. by rewrite Hmu.
Qed.

(** ** The trace and the registries of the two sequences *)

Lemma registerSeq_spec tid reg cs (w : World RegState) registered err w' :
  registerSeq' tid reg cs w = (registered, err, w') →
  (∀ r, r ≠ reg → registries w' r = registries w r) ∧
  match err with
  | None =>
      registered = cs ∧
      trace w' = trace w ++ (registerOk tid reg <$> cs)
  | Some e =>
      ∃ c post, cs = registered ++ c :: post ∧
      trace w' = trace w ++ (registerOk tid reg <$> registered)
                         ++ [EvRegister tid reg c (Some e)]
  end.
Proof.
  revert w registered err w'.
  induction cs as [|c cs IH]; intros w registered err w'; simpl.
  - intros [= <- <- <-]. split; [done|]. by rewrite app_nil_r.
  - destruct (reg_Register c (registries w reg)) as [[e|] s] eqn:Hc.
    + intros [= <- <- <-]. simpl. split.
      * intros r Hr. by rewrite fn_lookup_insert_ne.
      * by exists c, cs.
    + destruct (registerSeq _ tid reg cs _) as [[registered0 err0] w0] eqn:Hrest.
      intros [= <- <- <-]. apply IH in Hrest as [Hother Hrest]. split.
      * intros r Hr. rewrite Hother by done. simpl. by rewrite fn_lookup_insert_ne.
      * destruct err0 as [e|].
        -- destruct Hrest as (c0 & post & -> & ->). exists c0, post.
           split; [done|]. simpl. by rewrite <- !app_assoc.
        -- destruct Hrest as [-> ->]. split; [done|]. simpl. by rewrite <- app_assoc.
Qed.

Lemma unregisterSeq_spec tid reg cs (w : World RegState) :
  (∀ r, r ≠ reg → registries (unregisterSeq' tid reg cs w) r = registries w r) ∧
  ∃ bs : list bool, length bs = length cs ∧
    trace (unregisterSeq' tid reg cs w)
      = trace w ++ zip_with (EvUnregister tid reg) cs bs.
Proof.
  revert w. induction cs as [|c cs IH]; intros w; simpl.
  - split; [done|]. exists []. by rewrite app_nil_r.
  - destruct (reg_Unregister c (registries w reg)) as [b s].
    destruct (IH (setRegistry reg s (EvUnregister tid reg c b) w))
      as (Hother & bs & Hlen & Htr). split.
    + intros r Hr. rewrite Hother by done. simpl. by rewrite fn_lookup_insert_ne.
    + exists (b :: bs). split; [simpl; lia|].
      rewrite Htr. simpl. by rewrite <- app_assoc.
Qed.

Lemma registerSeq_lawful holds (L : LawfulRegistry reg_Register reg_Unregister holds)
    tid reg cs (w : World RegState) registered err w' :
  registerSeq' tid reg cs w = (registered, err, w') →
  ∀ c', holds (registries w' reg) c' ↔
        c' ∈ registered ∨ holds (registries w reg) c'.
Proof.
  revert w registered err w'.
  induction cs as [|c cs IH]; intros w registered err w'; simpl.
  - intros [= <- <- <-] c'. rewrite elem_of_nil. tauto.
  - destruct (reg_Register c (registries w reg)) as [[e|] s] eqn:Hc.
    + intros [= <- <- <-] c'. simpl. rewrite fn_lookup_insert.
      rewrite (register_err _ _ _ L _ _ _ _ Hc), elem_of_nil. tauto.
    + destruct (registerSeq _ tid reg cs _) as [[registered0 err0] w0] eqn:Hrest.
      intros [= <- <- <-] c'. rewrite (IH _ _ _ _ Hrest). simpl.
      rewrite fn_lookup_insert, (register_ok _ _ _ L _ _ _ Hc), elem_of_cons. tauto.
Qed.

Lemma unregisterSeq_lawful holds (L : LawfulRegistry reg_Register reg_Unregister holds)
    tid reg cs (w : World RegState) :
  ∀ c', holds (registries (unregisterSeq' tid reg cs w) reg) c' ↔
        (c' ∉ cs) ∧ holds (registries w reg) c'.
Proof.
  revert w. induction cs as [|c cs IH]; intros w c'; simpl.
  - rewrite elem_of_nil. tauto.
  - destruct (reg_Unregister c (registries w reg)) as [b s] eqn:Hc.
    rewrite IH. simpl.
    rewrite fn_lookup_insert, (unregister_removes _ _ _ L _ _ _ _ Hc), not_elem_of_cons.
    tauto.
Qed.

End Sequential.

(** ** The three paths of the call *)

Section Paths.

Context {RegState : Type}.
Variable reg_Register : Collector → RegState → option error * RegState.
Variable reg_Unregister : Collector → RegState → bool * RegState.

Abbreviation call tid reg :=
  (run reg_Register reg_Unregister tid (RegisterDefaultServerMetricsWithRegisterer reg)).
Abbreviation Path' := (Path reg_Register reg_Unregister).

Lemma call_path tid reg (w : World RegState) :
  defaultServerMetricsPromRegistrationMu w = false →
  ∃ r w', call tid reg w = Finished r w' ∧ Path' tid reg w r w'.
Proof.
  intros Hmu. rewrite run_RegisterDefaultServerMetricsWithRegisterer by done.
  unfold registerInto. case_bool_decide as Hin.
  { eexists _, _. split; [done|]. unfold setMu. simpl.
    rewrite <- app_assoc. by apply path_already. }
  destruct (registerSeq _ _ _ _ _) as [[registered err] w1] eqn:Hseq.
  pose proof (registerSeq_frame reg_Register tid reg
    (instruments (DefaultServerMetrics w)) (setMu true (EvLock tid) w)) as Hfr.
  rewrite Hseq in Hfr. destruct Hfr as (Hm1 & Hr1 & Hmu1).
  pose proof (registerSeq_spec _ _ _ _ _ _ _ _ Hseq) as [Hother1 Htr1].
  destruct err as [e|].
  - destruct Htr1 as (c & post & Hcs & Htr1).
    destruct (unregisterSeq_spec reg_Unregister tid reg registered w1)
      as (Hother2 & bs & Hlen & Htr2).
    destruct (unregisterSeq_frame reg_Unregister tid reg registered w1)
      as (Hm2 & Hr2 & Hmu2).
    eexists _, _. split; [done|].
    apply (path_rollback _ _ _ _ _ registered c post e bs); simpl; try done.
    + rewrite Htr2, Htr1. simpl. by rewrite <- !app_assoc.
    + by rewrite Hm2, Hm1.
    + by rewrite Hr2, Hr1.
    + intros r Hr. by rewrite Hother2, Hother1.
    + intros holds L c'.
      rewrite (unregisterSeq_lawful _ _ holds L),
        (registerSeq_lawful _ _ holds L _ _ _ _ _ _ _ Hseq). simpl. tauto.
  - destruct Htr1 as [-> Htr1].
    eexists _, _. split; [done|].
    apply path_recorded; simpl; try done.
    + rewrite Htr1. simpl. by rewrite <- !app_assoc.
    + by rewrite Hr1.
    + intros holds L c'.
      by rewrite (registerSeq_lawful _ _ holds L _ _ _ _ _ _ _ Hseq).
Qed.

(** A call that returns found the mutex free, and took one of the paths. *)
Lemma call_finished tid reg (w : World RegState) r w' :
  call tid reg w = Finished r w' →
  defaultServerMetricsPromRegistrationMu w = false ∧ Path' tid reg w r w'.
Proof.
  intros Hrun.
  destruct (defaultServerMetricsPromRegistrationMu w) eqn:Hmu.
  { by rewrite run_held in Hrun. }
  split; [done|].
  destruct (call_path tid reg w Hmu) as (r0 & w0 & Hrun0 & Hpath).
  rewrite Hrun0 in Hrun. by injection Hrun as -> ->.
Qed.

End Paths.

(** ** Reading a trace *)

Lemma registerCalls_app evs1 evs2 :
  registerCalls (evs1 ++ evs2) = registerCalls evs1 ++ registerCalls evs2.
Proof.
  induction evs1 as [|ev evs1 IH]; [done|].
  destruct ev; simpl; by rewrite IH.
Qed.

Lemma registerCalls_ok tid reg cs :
  registerCalls ((registerOk tid reg <$> cs)) = ((λ c, (c, None)) <$> cs).
Proof. induction cs as [|c cs IH]; [done|]. csimpl. by rewrite IH. Qed.

Lemma registerCalls_unregister tid reg cs bs :
  registerCalls (zip_with (EvUnregister tid reg) cs bs) = [].
Proof.
  revert bs. induction cs as [|c cs IH]; intros [|b bs]; try done. simpl. apply IH.
Qed.

Lemma filter_isLock_ok tid reg cs :
  filter isLock ((registerOk tid reg <$> cs)) = [].
Proof.
  induction cs as [|c cs IH]; [done|]. csimpl.
  rewrite filter_cons_False by (cbv; tauto). done.
Qed.

Lemma filter_isUnlock_ok tid reg cs :
  filter isUnlock ((registerOk tid reg <$> cs)) = [].
Proof.
  induction cs as [|c cs IH]; [done|]. csimpl.
  rewrite filter_cons_False by (cbv; tauto). done.
Qed.

Lemma filter_isLock_unregister tid reg cs bs :
  filter isLock (zip_with (EvUnregister tid reg) cs bs) = [].
Proof.
  revert bs. induction cs as [|c cs IH]; intros [|b bs]; try done.
  simpl. rewrite filter_cons_False by (cbv; tauto). done.
Qed.

Lemma filter_isUnlock_unregister tid reg cs bs :
  filter isUnlock (zip_with (EvUnregister tid reg) cs bs) = [].
Proof.
  revert bs. induction cs as [|c cs IH]; intros [|b bs]; try done.
  simpl. rewrite filter_cons_False by (cbv; tauto). done.
Qed.

(** ** The claims about one call *)

Section Claims.

Context {RegState : Type}.
Variable reg_Register : Collector → RegState → option error * RegState.
Variable reg_Unregister : Collector → RegState → bool * RegState.

Abbreviation call tid reg :=
  (run reg_Register reg_Unregister tid (RegisterDefaultServerMetricsWithRegisterer reg)).
Abbreviation Lawful := (LawfulRegistry reg_Register reg_Unregister).


(** Claim C2.  On a registry that is recorded, a call returns
    [alreadyRegistered = true] with a nil error, and the world after differs
    from the world before only by the trace of a [Lock] and an [Unlock]: no
    [Register] and no [Unregister] call, the registries and the record
    unchanged.  The world a successful call leaves is such a world. *)
Theorem C2_idempotent_per_registry tid reg (w : World RegState) :
  let w' := mkWorld (DefaultServerMetrics w) (defaultServerMetricsPromRegistration w)
                    false (registries w) (trace w ++ [EvLock tid; EvUnlock tid]) in
  (defaultServerMetricsPromRegistrationMu w = false →
   reg ∈ defaultServerMetricsPromRegistration w →
   call tid reg w = Finished (true, None) w') ∧
  (∀ tid0 w0, call tid0 reg w0 = Finished (false, None) w →
   call tid reg w = Finished (true, None) w').
Proof.
  intros w'.
  assert (Hrec : defaultServerMetricsPromRegistrationMu w = false →
    reg ∈ defaultServerMetricsPromRegistration w →
    call tid reg w = Finished (true, None) w').
  { intros Hmu Hin.
    destruct (call_path reg_Register reg_Unregister tid reg w Hmu)
      as (r & w1 & Hrun & Hpath).
    inversion Hpath; subst; done. }
  split; [done|].
  intros tid0 w0 Hrun0. apply call_finished in Hrun0 as [_ Hpath].
  inversion Hpath as [| |w1 Hnin Htr Hm Hrec' Hmu' _ _]; subst.
  apply Hrec; [done|]. rewrite Hrec'. set_solver.
Qed.


(** Claim C10.  A call that returns [alreadyRegistered = true] returns a nil error
    and has made no [Register] and no [Unregister] call, leaving every
    registry as it was; a call that returns an error returns
    [alreadyRegistered = false]. *)
Theorem C10_results_mutually_exclusive tid reg (w : World RegState) a err w' :
  call tid reg w = Finished (a, err) w' →
  (a = true →
   err = None ∧ registries w' = registries w ∧
   ∃ evs, trace w' = trace w ++ evs ∧ filter isRegistryCall evs = []) ∧
  (err ≠ None → a = false).
Proof.
  intros Hrun. apply call_finished in Hrun as [Hmu Hpath].
  inversion Hpath; subst; split; try done.
  intros _. repeat split. by exists [EvLock tid; EvUnlock tid].
Qed.

Lemma instruments_enabled m h :
  serverHandledHistogramEnabled m = true →
  serverHandledHistogram m = Some h →
  instruments m = counters m ++ [HistogramCollector h].
Proof. unfold instruments, counters. by intros -> ->. Qed.

Lemma instruments_disabled m :
  serverHandledHistogramEnabled m = false → instruments m = counters m.
Proof. unfold instruments, counters. by intros ->. Qed.

Lemma instruments_nil m :
  serverHandledHistogram m = None → instruments m = counters m.
Proof.
  unfold instruments, counters. intros ->.
  by destruct (serverHandledHistogramEnabled m).
Qed.

Lemma counters_no_histogram m h : HistogramCollector h ∉ counters m.
Proof. unfold counters, collectCounter. set_solver. Qed.

(** The histogram is among the instruments only with the flag set and the
    pointer not nil. *)
Lemma histogram_in_instruments m h :
  HistogramCollector h ∈ instruments m →
  serverHandledHistogramEnabled m = true ∧ serverHandledHistogram m = Some h.
Proof.
  unfold instruments. rewrite elem_of_app. intros [Hin|Hin].
  - unfold collectCounter in Hin. set_solver.
  - destruct (serverHandledHistogramEnabled m), (serverHandledHistogram m) as [h'|];
      set_solver.
Qed.


(** Claim C4.  On a call that registers everything: with the flag set and the
    histogram [h] in place, the [Register] calls are the four counters and
    then [h], the fifth, each returning nil, and a registry that keeps its
    contract holds [h], bucket boundaries included; with the flag not set,
    the [Register] calls are the four counters, none is for a histogram, and
    such a registry holds no histogram it did not hold before. *)
Theorem C4_histogram_registered_when_enabled tid reg (w : World RegState) w' :
  call tid reg w = Finished (false, None) w' →
  let m := DefaultServerMetrics w in
  ∃ evs,
    trace w' = trace w ++ evs ∧
    (∀ h, serverHandledHistogramEnabled m = true →
          serverHandledHistogram m = Some h →
          registerCalls evs
            = ((λ c, (c, None)) <$> counters m ++ [HistogramCollector h]) ∧
          registerCalls evs !! 4 = Some (HistogramCollector h, None) ∧
          ∀ holds, Lawful holds → holds (registries w' reg) (HistogramCollector h)) ∧
    (serverHandledHistogramEnabled m = false →
          registerCalls evs = ((λ c, (c, None)) <$> counters m) ∧
          (∀ h res, (HistogramCollector h, res) ∉ registerCalls evs) ∧
          ∀ holds, Lawful holds →
            (∀ c, c ∈ counters m → holds (registries w' reg) c) ∧
            (∀ h, holds (registries w' reg) (HistogramCollector h) →
                  holds (registries w reg) (HistogramCollector h))).
Proof.
  intros Hrun m. apply call_finished in Hrun as [Hmu Hpath].
  inversion Hpath as [| |w0 Hnin Htr Hm Hrec Hmu' _ Hlaw]; subst.
  eexists. split; [exact Htr|].
  rewrite !registerCalls_app, registerCalls_ok. cbn [registerCalls app].
  rewrite app_nil_r. fold m. fold m in Hlaw. split.
  - intros h Hon Hsome. rewrite (instruments_enabled m h Hon Hsome).
    repeat split.
    intros holds L. apply (Hlaw holds L).
      rewrite (instruments_enabled m h Hon Hsome). set_solver.
  - intros Hoff. rewrite (instruments_disabled m Hoff). repeat split.
    + intros h res Hin. apply list_elem_of_fmap in Hin as (c0 & [= <- ->] & Hc0).
      by apply counters_no_histogram in Hc0.
    + intros c Hc. apply (Hlaw holds); [done|].
      rewrite (instruments_disabled m Hoff). tauto.
    + intros h Hh. apply (Hlaw holds) in Hh as [Hh|Hh]; [|done|done].
      rewrite (instruments_disabled m Hoff) in Hh.
      by apply counters_no_histogram in Hh.
Qed.

(** Claim C9.  No call tries to register a histogram unless the flag is set and the
    pointer is not nil.  With the flag set and the pointer nil, a call on a
    registry that is not recorded tries the four counters only, and when all
    four are registered it returns nil and records the registry. *)
Theorem C9_nil_histogram_skipped tid reg (w : World RegState) r w' :
  call tid reg w = Finished r w' →
  let m := DefaultServerMetrics w in
  ∃ evs,
    trace w' = trace w ++ evs ∧
    (∀ h res, (HistogramCollector h, res) ∈ registerCalls evs →
              serverHandledHistogramEnabled m = true ∧
              serverHandledHistogram m = Some h) ∧
    (serverHandledHistogramEnabled m = true →
     serverHandledHistogram m = None →
     reg ∉ defaultServerMetricsPromRegistration w →
       (∀ h res, (HistogramCollector h, res) ∉ registerCalls evs) ∧
       (fst <$> registerCalls evs) `prefix_of` counters m ∧
       (registerCalls evs = ((λ c, (c, None)) <$> counters m) ↔ r = (false, None)) ∧
       (r = (false, None) → reg ∈ defaultServerMetricsPromRegistration w')).
Proof.
  intros Hrun m. apply call_finished in Hrun as [Hmu Hpath].
  assert (Hnil : serverHandledHistogramEnabled m = true →
                 serverHandledHistogram m = None → instruments m = counters m).
  { intros _ Hnone. by apply instruments_nil. }
  inversion Hpath as [Hin|pre c post e bs w0 Hnin Hinstr Hlen Htr Hm Hrec Hmu' _ _
                     |w0 Hnin Htr Hm Hrec Hmu' _ _]; subst.
  - exists [EvLock tid; EvUnlock tid]. simpl. split; [done|]. split.
    + intros h res Hh. set_solver.
    + intros _ _ Hnin. done.
  - eexists. split; [exact Htr|].
    rewrite !registerCalls_app, registerCalls_ok, registerCalls_unregister.
    cbn [registerCalls app].
    fold m in Hinstr.
    assert (Hsub : ∀ c0 res, (c0, res) ∈ ((λ c1, (c1, None)) <$> pre) ++ [(c, Some e)] →
                             c0 ∈ instruments m).
    { intros c0 res Hin. rewrite Hinstr. apply elem_of_app in Hin as [Hin|Hin].
      - apply list_elem_of_fmap in Hin as (c1 & [= <- ->] & Hc1). set_solver.
      - set_solver. }
    split.
    + intros h res Hin. by apply histogram_in_instruments, (Hsub _ res).
    + intros Hon Hnone _. repeat split.
      * intros h res Hin. apply Hsub, histogram_in_instruments in Hin as [_ Hsome].
        congruence.
      * rewrite fmap_app, <- list_fmap_compose. simpl. rewrite list_fmap_id, <- Hnil, Hinstr by done.
        exists post. by rewrite <- app_assoc.
      * intros Heq.
        assert ((c, Some e) ∈ ((λ c1, (c1, @None error)) <$> pre) ++ [(c, Some e)])
          as Hin by set_solver.
        rewrite Heq in Hin. by apply list_elem_of_fmap in Hin as (? & [=] & _).
      * done.
      * done.
  - eexists. split; [exact Htr|].
    rewrite !registerCalls_app, registerCalls_ok. cbn [registerCalls app].
    rewrite app_nil_r. fold m.
    split.
    + intros h res Hin. apply list_elem_of_fmap in Hin as (c0 & [= <- ->] & Hc0).
      by apply histogram_in_instruments.
    + intros Hon Hnone _. rewrite Hnil by done. repeat split; try done.
      * intros h res Hin. apply list_elem_of_fmap in Hin as (c0 & [= <- ->] & Hc0).
        by apply counters_no_histogram in Hc0.
      * intros _. rewrite Hrec. set_solver.
Qed.

End Claims.

(** ** Register and the record across operations *)

Lemma counterTouched_refl c : counterTouched c c.
Proof. split; [done|]. intros k. by left. Qed.

Lemma counterTouched_trans c1 c2 c3 :
  counterTouched c1 c2 → counterTouched c2 c3 → counterTouched c1 c3.
Proof.
  intros [Hn12 H12] [Hn23 H23]. split; [congruence|]. intros k.
  destruct (H12 k) as [Heq|[Hnone Hzero]], (H23 k) as [Heq'|[Hnone' Hzero']].
  - left. congruence.
  - right. split; congruence.
  - right. split; congruence.
  - congruence.
Qed.

Lemma counterAdd_touched k c : counterTouched c (counterAdd k 0 c).
Proof.
  split; [done|]. intros k'. unfold counterAdd. simpl.
  destruct (decide (k = k')) as [<-|Hne].
  - rewrite lookup_insert_eq.
    destruct (counterSeries c !! k) as [v|] eqn:Hk; simpl.
    + left. f_equal. lia.
    + by right.
  - left. by rewrite lookup_insert_ne.
Qed.

Lemma counterAdd_is_Some k c : is_Some (counterSeries (counterAdd k 0 c) !! k).
Proof. unfold counterAdd. simpl. rewrite lookup_insert_eq. by eexists. Qed.

Lemma counterTouched_is_Some c c' k :
  counterTouched c c' → is_Some (counterSeries c !! k) → is_Some (counterSeries c' !! k).
Proof.
  intros [_ H] [v Hv]. destruct (H k) as [Heq|[Hnone _]]; [|congruence].
  exists v. congruence.
Qed.

Lemma counterTouched_value c c' k :
  counterTouched c c' → is_Some (counterSeries c' !! k) →
  counterSeries c' !! k = Some (default 0 (counterSeries c !! k)).
Proof.
  intros [_ H] [v Hv]. destruct (H k) as [Heq|[Hnone Hzero]].
  - rewrite <- Heq, Hv. done.
  - rewrite Hnone, Hzero. done.
Qed.

Lemma handled_fold_touched labels codes c :
  let c' := foldl (λ c code, counterAdd (labels ++ [code]) 0 c) c codes in
  counterTouched c c' ∧
  ∀ code, code ∈ codes → is_Some (counterSeries c' !! (labels ++ [code])).
Proof.
  revert c. induction codes as [|code0 codes IH]; intros c; simpl.
  - split; [apply counterTouched_refl|]. intros code Hin. by apply elem_of_nil in Hin.
  - destruct (IH (counterAdd (labels ++ [code0]) 0 c)) as [Ht Hcov]. split.
    + eapply counterTouched_trans; [apply counterAdd_touched | exact Ht].
    + intros code [->|Hin]%elem_of_cons; [|by apply Hcov].
      eapply counterTouched_is_Some; [exact Ht | apply counterAdd_is_Some].
Qed.

Lemma metricsTouched_refl m : metricsTouched m m.
Proof. repeat split; try done; by left. Qed.

Lemma metricsTouched_trans m1 m2 m3 :
  metricsTouched m1 m2 → metricsTouched m2 m3 → metricsTouched m1 m3.
Proof.
  intros (Hs & Hh & ? & ? & ? & ? & ?) (Hs' & Hh' & ? & ? & ? & ? & ?).
  split; [by eapply counterTouched_trans|].
  split; [by eapply counterTouched_trans|].
  repeat split; congruence.
Qed.

Lemma covered_touched allCodes m m' service mi :
  metricsTouched m m' → covered allCodes m service mi → covered allCodes m' service mi.
Proof.
  intros (Hs & Hh & _) [Hst Hha]. split.
  - by eapply counterTouched_is_Some.
  - intros code Hin. eapply counterTouched_is_Some; [exact Hh | by apply Hha].
Qed.

Lemma preRegisterMethod_touched allCodes service m mi :
  metricsTouched m (preRegisterMethod allCodes service m mi) ∧
  covered allCodes (preRegisterMethod allCodes service m mi) service mi.
Proof.
  destruct (handled_fold_touched (callLabels service mi) allCodes
              (serverHandledCounter m)) as [Ht Hcov].
  split.
  - split; [apply counterAdd_touched|]. split; [exact Ht|]. done.
  - split; [apply counterAdd_is_Some | exact Hcov].
Qed.

Lemma methods_fold_touched allCodes service mis m :
  let m' := foldl (preRegisterMethod allCodes service) m mis in
  metricsTouched m m' ∧ ∀ mi, mi ∈ mis → covered allCodes m' service mi.
Proof.
  revert m. induction mis as [|mi0 mis IH]; intros m; simpl.
  - split; [apply metricsTouched_refl|]. intros mi Hin. by apply elem_of_nil in Hin.
  - destruct (IH (preRegisterMethod allCodes service m mi0)) as [Ht Hcov].
    destruct (preRegisterMethod_touched allCodes service m mi0) as [Ht0 Hcov0].
    split; [by eapply metricsTouched_trans|].
    intros mi [->|Hin]%elem_of_cons; [|by apply Hcov].
    by eapply covered_touched.
Qed.

Lemma InitializeMetrics_touched allCodes server m :
  let m' := ServerMetrics_InitializeMetrics allCodes server m in
  metricsTouched m m' ∧
  ∀ svc mi, svc ∈ serviceTable server → mi ∈ serviceMethods svc →
            covered allCodes m' (serviceName svc) mi.
Proof.
  unfold ServerMetrics_InitializeMetrics. generalize (serviceTable server) as svcs.
  intros svcs. revert m. induction svcs as [|svc0 svcs IH]; intros m; simpl.
  - split; [apply metricsTouched_refl|]. intros svc mi Hin. by apply elem_of_nil in Hin.
  - destruct (methods_fold_touched allCodes (serviceName svc0) (serviceMethods svc0) m)
      as [Ht0 Hcov0].
    destruct (IH (foldl (preRegisterMethod allCodes (serviceName svc0)) m
                        (serviceMethods svc0))) as [Ht Hcov].
    split; [by eapply metricsTouched_trans|].
    intros svc mi [->|Hin]%elem_of_cons Hmi; [|by apply Hcov].
    eapply covered_touched; [exact Ht | by apply Hcov0].
Qed.

Section Operations.

Context {RegState : Type}.
Variable reg_Register : Collector → RegState → option error * RegState.
Variable reg_Unregister : Collector → RegState → bool * RegState.

Abbreviation call tid reg :=
  (run reg_Register reg_Unregister tid (RegisterDefaultServerMetricsWithRegisterer reg)).
Abbreviation exec := (execOp reg_Register reg_Unregister).

Lemma run_onDefaultServerMetrics tid method (w : World RegState) :
  run reg_Register reg_Unregister tid (onDefaultServerMetrics method) w
  = Finished tt (setMetrics (method (DefaultServerMetrics w)) w).
Proof. done. Qed.

(** Claim C7.  [Register(server)] returns, and changes nothing but the default
    metric set, which it replaces by the set [InitializeMetrics] gives.  In
    that set, for every method of every service of the server's table, the
    started series of the method exists, and so does its handled series under
    every status code; each has the value it had before, or 0 when it did not
    exist.  So on counters that have no series yet, each of these series
    exists with value 0. *)
Theorem C7_Register_initializes_to_zero allCodes server tid (w : World RegState) :
  let m := DefaultServerMetrics w in
  let m' := ServerMetrics_InitializeMetrics allCodes server m in
  run reg_Register reg_Unregister tid (Register allCodes server) w
    = Finished tt (mkWorld m' (defaultServerMetricsPromRegistration w)
                     (defaultServerMetricsPromRegistrationMu w)
                     (registries w) (trace w)) ∧
  (∀ svc mi, svc ∈ serviceTable server → mi ∈ serviceMethods svc →
     let labels := callLabels (serviceName svc) mi in
     counterSeries (serverStartedCounter m') !! labels
       = Some (default 0 (counterSeries (serverStartedCounter m) !! labels)) ∧
     (∀ code, code ∈ allCodes →
        counterSeries (serverHandledCounter m') !! (labels ++ [code])
          = Some (default 0 (counterSeries (serverHandledCounter m) !! (labels ++ [code])))) ∧
     (counterSeries (serverStartedCounter m) = ∅ →
      counterSeries (serverHandledCounter m) = ∅ →
        counterSeries (serverStartedCounter m') !! labels = Some 0 ∧
        ∀ code, code ∈ allCodes →
          counterSeries (serverHandledCounter m') !! (labels ++ [code]) = Some 0)) ∧
  (∀ k v, counterSeries (serverStartedCounter m) !! k = Some v →
          counterSeries (serverStartedCounter m') !! k = Some v) ∧
  (∀ k v, counterSeries (serverHandledCounter m) !! k = Some v →
          counterSeries (serverHandledCounter m') !! k = Some v).
Proof.
  intros m m'.
  destruct (InitializeMetrics_touched allCodes server m) as [(Hs & Hh & _) Hcov].
  fold m' in Hs, Hh, Hcov.
  split; [done|].
  assert (Hvalues : ∀ svc mi, svc ∈ serviceTable server → mi ∈ serviceMethods svc →
     counterSeries (serverStartedCounter m') !! callLabels (serviceName svc) mi
       = Some (default 0 (counterSeries (serverStartedCounter m)
                            !! callLabels (serviceName svc) mi)) ∧
     (∀ code, code ∈ allCodes →
        counterSeries (serverHandledCounter m') !! (callLabels (serviceName svc) mi ++ [code])
          = Some (default 0 (counterSeries (serverHandledCounter m)
                               !! (callLabels (serviceName svc) mi ++ [code]))))).
  { intros svc mi Hsvc Hmi. destruct (Hcov svc mi Hsvc Hmi) as [Hst Hha]. split.
    - by apply counterTouched_value.
    - intros code Hcode. apply counterTouched_value; [done | by apply Hha]. }
  split; [|split].
  - intros svc mi Hsvc Hmi labels.
    destruct (Hvalues svc mi Hsvc Hmi) as [Hst Hha]. fold labels in Hst, Hha.
    split; [done|]. split; [done|].
    intros Hes Heh. split.
    + rewrite Hst, Hes, lookup_empty. done.
    + intros code Hcode. rewrite (Hha code Hcode), Heh, lookup_empty. done.
  - intros k v Hk. destruct Hs as [_ Hs]. destruct (Hs k) as [Heq|[Hnone _]]; congruence.
  - intros k v Hk. destruct Hh as [_ Hh]. destruct (Hh k) as [Heq|[Hnone _]]; congruence.
Qed.

(** One operation and the record. *)
Lemma execOp_record allCodes (w : World RegState) tid op :
  let w' := exec allCodes w (tid, op) in
  defaultServerMetricsPromRegistration w' = defaultServerMetricsPromRegistration w ∨
  ∃ reg, op = OpRegisterDefaultServerMetricsWithRegisterer reg ∧
         (reg ∉ defaultServerMetricsPromRegistration w) ∧
         call tid reg w = Finished (false, None) w' ∧
         defaultServerMetricsPromRegistration w'
           = {[reg]} ∪ defaultServerMetricsPromRegistration w ∧
         ∃ evs, trace w' = trace w ++ evs ∧
                registerCalls evs
                  = (λ c, (c, None)) <$> instruments (DefaultServerMetrics w).
Proof.
  destruct op as [server|opts|reg]; unfold execOp.
  { unfold Register. rewrite run_onDefaultServerMetrics. by left. }
  { unfold EnableHandlingTimeHistogram. rewrite run_onDefaultServerMetrics. by left. }
  destruct (defaultServerMetricsPromRegistrationMu w) eqn:Hmu.
  { rewrite run_held by done. by left. }
  destruct (call_path reg_Register reg_Unregister tid reg w Hmu)
    as (r & w' & Hrun & Hpath).
  rewrite Hrun. cbn [worldOf].
  inversion Hpath as [Hin|pre c post e bs w0 Hnin Hinstr Hlen Htr Hm Hrec Hmu' _ _
                     |w0 Hnin Htr Hm Hrec Hmu' _ _]; subst; try by left.
  right. exists reg. repeat split; try done.
  eexists. split; [exact Htr|].
  rewrite !registerCalls_app, registerCalls_ok. cbn [registerCalls app].
  by rewrite app_nil_r.
Qed.


End Operations.

(** ** Two calls at once *)

Lemma lockfree_bind {A B : Type} (p : prog A) (f : A → prog B) :
  lockfree p → (∀ a, lockfree (f a)) → lockfree (p ≫= f).
Proof.
  intros Hp Hf. unfold mbind, prog_bind.
  induction Hp; simpl; try (constructor; auto); auto.
Qed.

Lemma inRegion_bind {A B : Type} (p : prog A) (f : A → prog B) :
  lockfree p → (∀ a, inRegion (f a)) → inRegion (p ≫= f).
Proof.
  intros Hp Hf. unfold mbind, prog_bind.
  induction Hp; simpl; try (constructor; auto); auto.
Qed.

Lemma lockfree_unregisterFrom reg l n i : lockfree (unregisterFrom reg l n i).
Proof.
  revert i. induction n as [|n IH]; intros i; simpl; [constructor|].
  destruct (l !! i); [|constructor].
  constructor. intros b. apply IH.
Qed.

Lemma lockfree_registerAll reg : lockfree (registerAll reg).
Proof.
  unfold registerAll.
  repeat first
    [ progress (simpl; intros)
    | apply lockfree_ret
    | apply lockfree_load
    | apply lockfree_register
    | match goal with
      | |- lockfree (match ?x with _ => _ end) => destruct x
      end ].
Qed.

Lemma inRegion_deferred {A : Type} reg l err (a : A) :
  inRegion (deferred reg l err ≫= λ _, mret a).
Proof.
  unfold deferred. destruct err as [e|].
  - change (inRegion ((unregisterFrom reg l (length l) 0 ≫= λ _, unlock) ≫= λ _, mret a)).
    unfold mbind, prog_bind.
    pose proof (lockfree_unregisterFrom reg l (length l) 0) as Hl.
    induction Hl; simpl; try (constructor; auto).
  - simpl. repeat constructor.
Qed.

(** The whole body of the call is one region. *)
Lemma oneRegion_RegisterDefaultServerMetricsWithRegisterer reg :
  oneRegion (RegisterDefaultServerMetricsWithRegisterer reg).
Proof.
  unfold RegisterDefaultServerMetricsWithRegisterer.
  change (oneRegion (MuLock (RegistrationHas reg (λ ok : bool,
    if ok then unlock ≫= λ _, mret (true, None)
    else registerAll reg ≫= λ '(registeredMetrics, err),
           deferred reg registeredMetrics err ≫= λ _, mret (false, err))))).
  constructor. constructor. intros [|].
  - simpl. constructor.
  - apply inRegion_bind; [apply lockfree_registerAll|].
    intros [l err]. apply inRegion_deferred.
Qed.

Section Interleaving.

Context {RegState : Type}.
Variable reg_Register : Collector → RegState → option error * RegState.
Variable reg_Unregister : Collector → RegState → bool * RegState.

Abbreviation run' := (run reg_Register reg_Unregister).
Abbreviation tstep' := (tstep reg_Register reg_Unregister).
Abbreviation pstep' := (pstep reg_Register reg_Unregister).
Abbreviation psteps' := (psteps reg_Register reg_Unregister).
Abbreviation mu := (@defaultServerMetricsPromRegistrationMu RegState).

Lemma run_tstep {A : Type} tid (p p' : prog A) (w w' : World RegState) :
  tstep' tid p w = SNext p' w' → run' tid p w = run' tid p' w'.
Proof.
  destruct p; simpl; try congruence.
  - destruct (defaultServerMetricsPromRegistrationMu w); congruence.
  - destruct (defaultServerMetricsPromRegistrationMu w); congruence.
  - destruct (reg_Register c (registries w reg)). congruence.
  - destruct (reg_Unregister c (registries w reg)). congruence.
Qed.

(** A thread alone takes its steps one after the other up to its result. *)
Lemma run_psteps_left {A : Type} t1 (p1 : prog A) T2 (w w' : World RegState) a :
  run' t1 p1 w = Finished a w' →
  psteps' (w, (t1, p1), T2) (w', (t1, Ret a), T2).
Proof.
  revert w. induction p1 as [a0|k IH|k IH|reg k IH|reg k IH|k IH|m k IH|reg c k IH|reg c k IH];
    intros w; simpl.
  - intros [= -> ->]. apply rtc_refl.
  - destruct (mu w) eqn:Hmu; [done|]. intros Hrun.
    eapply rtc_l; [|by apply IH]. constructor. simpl. by rewrite Hmu.
  - destruct (mu w) eqn:Hmu; [|done]. intros Hrun.
    eapply rtc_l; [|by apply IH]. constructor. simpl. by rewrite Hmu.
  - intros Hrun. eapply rtc_l; [|by apply IH]. by constructor.
  - intros Hrun. eapply rtc_l; [|by apply IH]. by constructor.
  - intros Hrun. eapply rtc_l; [|by apply IH]. by constructor.
  - intros Hrun. eapply rtc_l; [|by apply IH]. by constructor.
  - destruct (reg_Register c (registries w reg)) as [err s] eqn:Hc. intros Hrun.
    eapply rtc_l; [|by apply IH]. constructor. simpl. by rewrite Hc.
  - destruct (reg_Unregister c (registries w reg)) as [b s] eqn:Hc. intros Hrun.
    eapply rtc_l; [|by apply IH]. constructor. simpl. by rewrite Hc.
Qed.

Lemma pstep_swap {A : Type} (X Y : Pool A) : pstep' X Y → pstep' (swap X) (swap Y).
Proof. intros [w w' t1 p1 p1' T2 H|w w' T1 t2 p2 p2' H]; simpl; by constructor. Qed.

Lemma psteps_swap {A : Type} (X Y : Pool A) : psteps' X Y → psteps' (swap X) (swap Y).
Proof.
  induction 1 as [X|X Y Z Hstep _ IH]; [apply rtc_refl|].
  eapply rtc_l; [by apply pstep_swap | exact IH].
Qed.

(** When the first thread has returned, the rest is the second thread alone. *)
Lemma psteps_alone {A : Type} (X Y : Pool A) :
  psteps' X Y →
  ∀ w t1 a1 t2 p2 w' T1 t2' a2,
    X = (w, (t1, Ret a1), (t2, p2)) → Y = (w', T1, (t2', Ret a2)) →
    T1 = (t1, Ret a1) ∧ run' t2 p2 w = Finished a2 w'.
Proof.
  induction 1 as [X|X Y Z Hstep _ IH]; intros w t1 a1 t2 p2 w' T1 t2' a2 -> HY.
  - by injection HY as -> -> -> ->.
  - inversion Hstep as [w0 w1 t p p' T Hs|w0 w1 T t p p' Hs]; subst.
    + done.
    + rewrite (run_tstep _ _ _ _ _ Hs). by eapply IH.
Qed.

(** A thread in its region moves on at each step, and leaves the region only
    by its [Unlock], after which it has returned. *)
Lemma inRegion_step {A : Type} tid (p p' : prog A) (w w' : World RegState) :
  inRegion p → mu w = true → tstep' tid p w = SNext p' w' →
  (inRegion p' ∧ mu w' = true) ∨ (∃ a, p' = Ret a ∧ mu w' = false).
Proof.
  intros Hin Hmu. destruct Hin; simpl.
  - rewrite Hmu. intros [= <- <-]. right. by eexists.
  - intros [= <- <-]. left. done.
  - intros [= <- <-]. left. done.
  - intros [= <- <-]. left. done.
  - intros [= <- <-]. left. done.
  - destruct (reg_Register c (registries w reg)). intros [= <- <-]. left. done.
  - destruct (reg_Unregister c (registries w reg)). intros [= <- <-]. left. done.
Qed.

(** An idle thread takes no step while the mutex is held. *)
Lemma idle_waits {A : Type} tid (p p' : prog A) (w w' : World RegState) :
  idle p → mu w = true → tstep' tid p w ≠ SNext p' w'.
Proof.
  intros [Hone|[a ->]] Hmu; [|done]. destruct Hone. simpl. by rewrite Hmu.
Qed.

Lemma idle_not_inRegion {A : Type} (p : prog A) : idle p → ¬ inRegion p.
Proof. intros [Hone|[a ->]] Hin; [destruct Hone|]; inversion Hin. Qed.

(** While the first thread is in its region the other waits: what happens up
    to the end is the first thread to its result, then the second. *)
Lemma psteps_inside {A : Type} (X Y : Pool A) :
  psteps' X Y →
  ∀ w t1 p1 t2 p2 w' a1 a2,
    X = (w, (t1, p1), (t2, p2)) → Y = (w', (t1, Ret a1), (t2, Ret a2)) →
    inRegion p1 → idle p2 → mu w = true →
    ∃ w1, run' t1 p1 w = Finished a1 w1 ∧ run' t2 p2 w1 = Finished a2 w'.
Proof.
  induction 1 as [X|X Y Z Hstep Hrest IH];
    intros w t1 p1 t2 p2 w' a1 a2 -> HY Hin Hidle Hmu.
  - injection HY as -> -> ->. inversion Hin.
  - inversion Hstep as [w0 w1 t p p' T Hs|w0 w1 T t p p' Hs]; subst.
    + rewrite (run_tstep _ _ _ _ _ Hs).
      destruct (inRegion_step _ _ _ _ _ Hin Hmu Hs) as [[Hin' Hmu']|(a & -> & Hmu')].
      * by eapply IH.
      * exists w1. simpl.
        destruct (psteps_alone _ _ Hrest _ _ _ _ _ _ _ _ _ eq_refl eq_refl)
          as [[= ->] Hrun2].
        done.
    + by apply idle_waits in Hs.
Qed.

(** At every point of an execution at most one thread is in its region. *)
Lemma idle_step {A : Type} tid (p p' : prog A) (w w' : World RegState) :
  idle p → tstep' tid p w = SNext p' w' →
  mu w = false ∧ mu w' = true ∧ inRegion p'.
Proof.
  intros [Hone|[a ->]]; [|done]. destruct Hone as [k Hk]. simpl.
  destruct (mu w) eqn:Hmu; [done|]. by intros [= <- <-].
Qed.

Lemma exclusive_step {A : Type} (X Y : Pool A) :
  exclusive X → pstep' X Y → exclusive Y.
Proof.
  intros Hex Hstep. destruct Hstep as [w w' t1 p1 p1' [t2 p2] Hs|w w' [t1 p1] t2 p2 p2' Hs];
    simpl in *.
  - destruct Hex as [(Hmu & Hi1 & Hi2)|[(Hmu & Hin1 & Hi2)|(Hmu & Hi1 & Hin2)]].
    + destruct (idle_step _ _ _ _ _ Hi1 Hs) as (_ & Hmu' & Hin'). right. left. done.
    + destruct (inRegion_step _ _ _ _ _ Hin1 Hmu Hs) as [[Hin' Hmu']|(a & -> & Hmu')].
      * right. left. done.
      * left. repeat split; try done. right. by eexists.
    + by apply idle_waits in Hs.
  - destruct Hex as [(Hmu & Hi1 & Hi2)|[(Hmu & Hin1 & Hi2)|(Hmu & Hi1 & Hin2)]].
    + destruct (idle_step _ _ _ _ _ Hi2 Hs) as (_ & Hmu' & Hin'). right. right. done.
    + by apply idle_waits in Hs.
    + destruct (inRegion_step _ _ _ _ _ Hin2 Hmu Hs) as [[Hin' Hmu']|(a & -> & Hmu')].
      * right. right. done.
      * left. repeat split; try done. right. by eexists.
Qed.

Lemma exclusive_steps {A : Type} (X Y : Pool A) :
  exclusive X → psteps' X Y → exclusive Y.
Proof.
  intros Hex Hsteps. induction Hsteps as [X|X Y Z Hstep _ IH]; [done|].
  apply IH. by eapply exclusive_step.
Qed.

(** Two threads that each run one region: an execution to the end is one
    thread to its result and then the other. *)
Lemma psteps_serial {A : Type} t1 t2 (p1 p2 : prog A) (w w' : World RegState) a1 a2 :
  oneRegion p1 → oneRegion p2 → mu w = false →
  psteps' (w, (t1, p1), (t2, p2)) (w', (t1, Ret a1), (t2, Ret a2)) →
  (∃ w1, run' t1 p1 w = Finished a1 w1 ∧ run' t2 p2 w1 = Finished a2 w') ∨
  (∃ w2, run' t2 p2 w = Finished a2 w2 ∧ run' t1 p1 w2 = Finished a1 w').
Proof.
  intros H1 H2 Hmu Hsteps.
  inversion Hsteps as [|X Y Z Hstep Hrest]; subst.
  { inversion H1. }
  inversion Hstep as [w0 w1 t p p' T Hs|w0 w1 T t p p' Hs]; subst.
  - left. rewrite (run_tstep _ _ _ _ _ Hs).
    destruct (idle_step _ _ _ _ _ (or_introl H1) Hs) as (_ & Hmu' & Hin').
    eapply (psteps_inside _ _ Hrest); try done. by left.
  - right. rewrite (run_tstep _ _ _ _ _ Hs).
    destruct (idle_step _ _ _ _ _ (or_introl H2) Hs) as (_ & Hmu' & Hin').
    apply psteps_swap in Hrest. simpl in Hrest.
    eapply (psteps_inside _ _ Hrest); try done. by left.
Qed.

End Interleaving.

(** ** The claim about two calls at once *)

Section TwoCalls.

Context {RegState : Type}.
Variable reg_Register : Collector → RegState → option error * RegState.
Variable reg_Unregister : Collector → RegState → bool * RegState.

Abbreviation call tid reg :=
  (run reg_Register reg_Unregister tid (RegisterDefaultServerMetricsWithRegisterer reg)).
Abbreviation steps := (psteps reg_Register reg_Unregister).

(** Claim C6.  Two threads call [RegisterDefaultServerMetricsWithRegisterer], on the
    same registry or on two, from a world with the mutex free.  Each call is
    one region: a [Lock], then the membership check, the registrations, the
    recording or the rollback, then the [Unlock] and the return.  At every
    point of every interleaving at most one thread is inside its region, and
    the mutex is held while one is.  Every interleaving that runs both calls
    to their end leaves the results and the world of one call run to its end
    followed by the other; both orders are interleavings; and on the same
    registry the two calls do not both register the instruments. *)
Theorem C6_calls_do_not_interleave t1 t2 reg1 reg2 (w : World RegState) :
  defaultServerMetricsPromRegistrationMu w = false →
  let P1 := RegisterDefaultServerMetricsWithRegisterer reg1 in
  let P2 := RegisterDefaultServerMetricsWithRegisterer reg2 in
  oneRegion P1 ∧ oneRegion P2 ∧
  (∀ w' p1 p2,
     steps (w, (t1, P1), (t2, P2)) (w', (t1, p1), (t2, p2)) →
     ¬ (inRegion p1 ∧ inRegion p2) ∧
     (inRegion p1 ∨ inRegion p2 → defaultServerMetricsPromRegistrationMu w' = true)) ∧
  (∀ w' a1 a2,
     steps (w, (t1, P1), (t2, P2)) (w', (t1, Ret a1), (t2, Ret a2)) →
     ((∃ w1, call t1 reg1 w = Finished a1 w1 ∧ call t2 reg2 w1 = Finished a2 w') ∨
      (∃ w2, call t2 reg2 w = Finished a2 w2 ∧ call t1 reg1 w2 = Finished a1 w')) ∧
     (reg1 = reg2 → ¬ (a1 = (false, None) ∧ a2 = (false, None)))) ∧
  (∃ w1 w' a1 a2,
     call t1 reg1 w = Finished a1 w1 ∧ call t2 reg2 w1 = Finished a2 w' ∧
     steps (w, (t1, P1), (t2, P2)) (w', (t1, Ret a1), (t2, Ret a2))) ∧
  (∃ w2 w' a1 a2,
     call t2 reg2 w = Finished a2 w2 ∧ call t1 reg1 w2 = Finished a1 w' ∧
     steps (w, (t1, P1), (t2, P2)) (w', (t1, Ret a1), (t2, Ret a2))).
Proof.
  intros Hmu P1 P2.
  pose proof (oneRegion_RegisterDefaultServerMetricsWithRegisterer reg1) as H1.
  pose proof (oneRegion_RegisterDefaultServerMetricsWithRegisterer reg2) as H2.
  fold P1 in H1. fold P2 in H2.
  assert (Hserial : ∀ w' a1 a2,
     steps (w, (t1, P1), (t2, P2)) (w', (t1, Ret a1), (t2, Ret a2)) →
     (∃ w1, call t1 reg1 w = Finished a1 w1 ∧ call t2 reg2 w1 = Finished a2 w') ∨
     (∃ w2, call t2 reg2 w = Finished a2 w2 ∧ call t1 reg1 w2 = Finished a1 w')).
  { intros w' a1 a2 Hsteps. by apply psteps_serial. }
  assert (Hthen : ∀ ta tb rega regb,
     ∃ wa wb a b,
       call ta rega w = Finished a wa ∧ call tb regb wa = Finished b wb).
  { intros ta tb rega regb.
    destruct (call_path reg_Register reg_Unregister ta rega w Hmu)
      as (a & wa & Hruna & Hpatha).
    assert (defaultServerMetricsPromRegistrationMu wa = false) as Hmua
      by (by inversion Hpatha).
    destruct (call_path reg_Register reg_Unregister tb regb wa Hmua)
      as (b & wb & Hrunb & _).
    by exists wa, wb, a, b. }
  split; [done|]. split; [done|]. split; [|split; [|split]].
  - intros w' p1 p2 Hsteps.
    assert (exclusive (w', (t1, p1), (t2, p2))) as Hex.
    { eapply exclusive_steps; [|exact Hsteps]. left. repeat split; [done| |]; by left. }
    destruct Hex as [(Hmu' & Hi1 & Hi2)|[(Hmu' & Hin1 & Hi2)|(Hmu' & Hi1 & Hin2)]].
    + split.
      * intros [Hin1 _]. by apply idle_not_inRegion in Hi1.
      * intros [Hin|Hin]; [by apply idle_not_inRegion in Hi1
                          |by apply idle_not_inRegion in Hi2].
    + split; [|done]. intros [_ Hin2]. by apply idle_not_inRegion in Hi2.
    + split; [|done]. intros [Hin1 _]. by apply idle_not_inRegion in Hi1.
  - intros w' a1 a2 Hsteps. split; [by apply Hserial|].
    intros <- [-> ->].
    destruct (Hserial _ _ _ Hsteps) as [(w1 & Hfst & Hsnd)|(w1 & Hfst & Hsnd)].
    all: apply call_finished in Hfst as [_ Hp1];
         apply call_finished in Hsnd as [_ Hp2];
         inversion Hp1 as [| |? ? ? ? Hrec ? ? ?]; subst;
         inversion Hp2 as [| |? Hnin ? ? ? ? ? ?]; subst;
         apply Hnin; rewrite Hrec; set_solver.
  - destruct (Hthen t1 t2 reg1 reg2) as (w1 & w' & a1 & a2 & Hr1 & Hr2).
    exists w1, w', a1, a2. repeat split; try done.
    etrans.
    + by apply run_psteps_left.
    + apply (psteps_swap _ _ (w1, (t2, P2), (t1, Ret a1)) (w', (t2, Ret a2), (t1, Ret a1))).
      by apply run_psteps_left.
  - destruct (Hthen t2 t1 reg2 reg1) as (w2 & w' & a2 & a1 & Hr2 & Hr1).
    exists w2, w', a1, a2. repeat split; try done.
    etrans.
    + apply (psteps_swap _ _ (w, (t2, P2), (t1, P1)) (w2, (t2, Ret a2), (t1, P1))).
      by apply run_psteps_left.
    + by apply run_psteps_left.
Qed.

End TwoCalls.

(** ** The test registry, and the claims on concrete calls *)

Lemma test_registry_lawful :
  LawfulRegistry test_Register test_Unregister (λ s c, c ∈ s).
Proof.
  split.
  - intros c s s'. unfold test_Register.
    destruct (nameTaken _ _); intros Heq; inversion Heq; subst. intros c'.
    rewrite elem_of_app, list_elem_of_singleton. tauto.
  - intros c s e s'. unfold test_Register.
    destruct (nameTaken _ _); intros Heq; inversion Heq; subst. done.
  - intros c s b s'. unfold test_Unregister. intros Heq; inversion Heq; subst.
    intros c'. rewrite list_elem_of_filter. tauto.
Qed.


(** After the conflicting name is removed, the retry registers the five
    instruments and records the registry. *)
Example retry_after_conflict_removed :
  let w := Fixture.world Fixture.metrics5 ∅ [Fixture.foreign] in
  let w' := Fixture.after (Fixture.call 0 Fixture.reg1 w) in
  let cleared := worldOf (run test_Register test_Unregister 0
                            (unregister Fixture.reg1 Fixture.foreign) w') in
  let w'' := Fixture.after (Fixture.call 0 Fixture.reg1 cleared) in
  Fixture.call 0 Fixture.reg1 cleared = Finished (false, None) w'' ∧
  registries w'' Fixture.reg1 = instruments Fixture.metrics5 ∧
  elements (defaultServerMetricsPromRegistration w'') = [Fixture.reg1].
Proof. vm_compute. done. Qed.

(** A second call after a successful first one. *)
Lemma C2_witness_second_call :
  let w0 := Fixture.world Fixture.metrics5 ∅ [] in
  let w := Fixture.after (Fixture.call 0 Fixture.reg1 w0) in
  Fixture.call 0 Fixture.reg1 w0 = Finished (false, None) w ∧
  length (registries w Fixture.reg1) = 5 ∧
  Fixture.call 1 Fixture.reg1 w
    = Finished (true, None)
        (mkWorld (DefaultServerMetrics w) (defaultServerMetricsPromRegistration w)
           false (registries w) (trace w ++ [EvLock 1; EvUnlock 1])).
Proof.
  intros w0 w.
  assert (Fixture.call 0 Fixture.reg1 w0 = Finished (false, None) w) as Hrun
    by (vm_compute; reflexivity).
  split; [exact Hrun|]. split; [vm_compute; reflexivity|].
  exact (proj2 (C2_idempotent_per_registry test_Register test_Unregister
                  1 Fixture.reg1 w) 0 w0 Hrun).
Defined.


(** The histogram enabled with its own buckets before the call is the fifth
    collector registered, and the registry holds it. *)
Lemma C4_witness_histogram_fifth :
  let w := Fixture.world Fixture.metrics5 ∅ [] in
  let w' := Fixture.after (Fixture.call 0 Fixture.reg1 w) in
  let h := Fixture.histogram in
  Fixture.call 0 Fixture.reg1 w = Finished (false, None) w' ∧
  histogramBuckets h = Fixture.buckets ∧
  registerCalls (trace w') !! 4 = Some (HistogramCollector h, None) ∧
  HistogramCollector h ∈ registries w' Fixture.reg1.
Proof.
  intros w w' h.
  assert (Fixture.call 0 Fixture.reg1 w = Finished (false, None) w') as Hrun
    by (vm_compute; reflexivity).
  destruct (C4_histogram_registered_when_enabled test_Register test_Unregister
              0 Fixture.reg1 w w' Hrun) as (evs & Htr & Hon & _).
  destruct (Hon h eq_refl eq_refl) as (_ & _ & Hholds).
  split; [exact Hrun|]. split; [reflexivity|]. split; [vm_compute; reflexivity|].
  exact (Hholds _ test_registry_lawful).
Defined.


(** Two calls on the same registry: the interleaving that runs the first
    thread and then the second is an execution, and the second call finds
    the registry recorded. *)
Lemma C6_witness_two_calls :
  let w := Fixture.world Fixture.metrics5 ∅ [] in
  defaultServerMetricsPromRegistrationMu w = false ∧
  oneRegion (RegisterDefaultServerMetricsWithRegisterer Fixture.reg1) ∧
  ∃ w1 w' a1 a2,
    Fixture.call 1 Fixture.reg1 w = Finished a1 w1 ∧
    Fixture.call 2 Fixture.reg1 w1 = Finished a2 w' ∧
    psteps test_Register test_Unregister
      (w, (1, RegisterDefaultServerMetricsWithRegisterer Fixture.reg1),
          (2, RegisterDefaultServerMetricsWithRegisterer Fixture.reg1))
      (w', (1, Ret a1), (2, Ret a2)).
Proof.
  intros w.
  assert (defaultServerMetricsPromRegistrationMu w = false) as Hmu by reflexivity.
  destruct (C6_calls_do_not_interleave test_Register test_Unregister
              1 2 Fixture.reg1 Fixture.reg1 w Hmu) as (H1 & _ & _ & _ & Hex & _).
  split; [exact Hmu|]. split; [exact H1 | exact Hex].
Defined.

(** [Register] on the server with UnaryA and StreamB, before any call. *)
Lemma C7_witness_two_methods :
  let w := Fixture.world Fixture.metrics4 ∅ [] in
  let m' := DefaultServerMetrics
              (worldOf (run test_Register test_Unregister 0
                          (Register Fixture.allCodes Fixture.server) w)) in
  counterSeries (serverStartedCounter m') !! ["unary"; "test.Service"; "UnaryA"]
    = Some 0 ∧
  counterSeries (serverStartedCounter m') !! ["server_stream"; "test.Service"; "StreamB"]
    = Some 0 ∧
  counterSeries (serverHandledCounter m') !! ["unary"; "test.Service"; "UnaryA"; "OK"]
    = Some 0 ∧
  counterSeries (serverHandledCounter m')
    !! ["server_stream"; "test.Service"; "StreamB"; "Unknown"] = Some 0.
Proof.
  intros w m'.
  destruct (C7_Register_initializes_to_zero test_Register test_Unregister
              Fixture.allCodes Fixture.server 0 w) as (Hrun & Hseries & _).
  assert (m' = ServerMetrics_InitializeMetrics Fixture.allCodes Fixture.server
                 (DefaultServerMetrics w)) as ->.
  { unfold m'. by rewrite Hrun. }
  set (svc := mkServiceInfo "test.Service"
                [mkMethodInfo "UnaryA" Unary; mkMethodInfo "StreamB" ServerStream]).
  assert (svc ∈ serviceTable Fixture.server) as Hsvc by apply list_elem_of_here.
  destruct (Hseries svc (mkMethodInfo "UnaryA" Unary) Hsvc (list_elem_of_here _ _))
    as (_ & _ & Hzero1).
  destruct (Hseries svc (mkMethodInfo "StreamB" ServerStream) Hsvc
              (list_elem_of_further _ _ _ (list_elem_of_here _ _)))
    as (_ & _ & Hzero2).
  destruct (Hzero1 eq_refl eq_refl) as [Hs1 Hh1].
  destruct (Hzero2 eq_refl eq_refl) as [Hs2 Hh2].
  split; [exact Hs1|]. split; [exact Hs2|]. split.
  - apply (Hh1 "OK"). apply list_elem_of_here.
  - apply (Hh2 "Unknown"). do 2 apply list_elem_of_further. apply list_elem_of_here.
Defined.


(** The three paths, each with one [Lock] and one [Unlock] in its trace, and
    the mutex free at the end. *)
Example mutex_on_each_path :
  let count (f : Event → bool) (w : World TestRegistry) :=
    length (List.filter f (trace w)) in
  let already := Fixture.after (Fixture.call 0 Fixture.reg1
                   (Fixture.world Fixture.metrics5 {[Fixture.reg1]} [])) in
  let failed := Fixture.after (Fixture.call 0 Fixture.reg1
                   (Fixture.world Fixture.metrics5 ∅ [Fixture.foreign])) in
  let recorded := Fixture.after (Fixture.call 0 Fixture.reg1
                   (Fixture.world Fixture.metrics5 ∅ [])) in
  (count isLock already, count isUnlock already) = (1, 1) ∧
  (count isLock failed, count isUnlock failed) = (1, 1) ∧
  (count isLock recorded, count isUnlock recorded) = (1, 1) ∧
  (defaultServerMetricsPromRegistrationMu already,
   defaultServerMetricsPromRegistrationMu failed,
   defaultServerMetricsPromRegistrationMu recorded) = (false, false, false).
Proof. vm_compute. done. Qed.

(** The flag set and the pointer nil: four counters, no histogram, success. *)
Lemma C9_witness_flag_without_histogram :
  let w := Fixture.world Fixture.metricsNil ∅ [] in
  let w' := Fixture.after (Fixture.call 0 Fixture.reg1 w) in
  Fixture.call 0 Fixture.reg1 w = Finished (false, None) w' ∧
  registries w' Fixture.reg1 = counters Fixture.metricsNil ∧
  ∃ evs, trace w' = trace w ++ evs ∧
         (∀ h res, (HistogramCollector h, res) ∉ registerCalls evs) ∧
         (Fixture.reg1 ∈ defaultServerMetricsPromRegistration w').
Proof.
  intros w w'.
  assert (Fixture.call 0 Fixture.reg1 w = Finished (false, None) w') as Hrun
    by (vm_compute; reflexivity).
  destruct (C9_nil_histogram_skipped test_Register test_Unregister
              0 Fixture.reg1 w _ w' Hrun) as (evs & Htr & _ & Hnil).
  assert (Fixture.reg1 ∉ defaultServerMetricsPromRegistration w) as Hnin
    by (simpl; set_solver).
  destruct (Hnil eq_refl eq_refl Hnin) as (Hnone & _ & _ & Hrec).
  split; [exact Hrun|]. split; [vm_compute; reflexivity|].
  exists evs. split; [exact Htr|]. split; [exact Hnone | by apply Hrec].
Defined.

(** A call on a recorded registry. *)
Lemma C10_witness_already_registered :
  let w := Fixture.world Fixture.metrics5 {[Fixture.reg1]} [] in
  let w' := Fixture.after (Fixture.call 0 Fixture.reg1 w) in
  Fixture.call 0 Fixture.reg1 w = Finished (true, None) w' ∧
  registries w' = registries w ∧
  ∃ evs, trace w' = trace w ++ evs ∧ filter isRegistryCall evs = [].
Proof.
  intros w w'.
  assert (Fixture.call 0 Fixture.reg1 w = Finished (true, None) w') as Hrun
    by (vm_compute; reflexivity).
  destruct (C10_results_mutually_exclusive test_Register test_Unregister
              0 Fixture.reg1 w true None w' Hrun) as [Htrue _].
  destruct (Htrue eq_refl) as (_ & Hregs & Hevs).
  split; [exact Hrun|]. split; [exact Hregs | exact Hevs].
Defined.

(** * More of server.go *)

Lemma unregisterCalls_app evs1 evs2 :
  unregisterCalls (evs1 ++ evs2) = unregisterCalls evs1 ++ unregisterCalls evs2.
Proof.
  induction evs1 as [|ev evs1 IH]; [done|].
  destruct ev; simpl; by rewrite IH.
Qed.

Lemma unregisterCalls_ok tid reg cs :
  unregisterCalls (registerOk tid reg <$> cs) = [].
Proof. induction cs as [|c cs IH]; [done|]. csimpl. by rewrite IH. Qed.

Lemma unregisterCalls_unregister tid reg cs bs :
  length bs = length cs →
  unregisterCalls (zip_with (EvUnregister tid reg) cs bs) = cs.
Proof.
  revert bs. induction cs as [|c cs IH]; intros [|b bs]; simpl; try done.
  intros [= Hlen]. by rewrite IH.
Qed.

Lemma instruments_length m : length (instruments m) ≤ 5.
Proof.
  unfold instruments. rewrite length_app. simpl.
  destruct (serverHandledHistogramEnabled m), (serverHandledHistogram m); simpl; lia.
Qed.

Lemma onRegistry_ok tid reg (cs : list Collector) ev :
  ev ∈ (registerOk tid reg <$> cs) → onRegistry reg ev = true.
Proof.
  intros (c & -> & _)%list_elem_of_fmap. simpl. by apply bool_decide_eq_true.
Qed.

Lemma onRegistry_unregister tid reg (cs : list Collector) bs ev :
  ev ∈ zip_with (EvUnregister tid reg) cs bs → onRegistry reg ev = true.
Proof.
  revert bs. induction cs as [|c cs IH]; intros [|b bs]; simpl;
    try (intros Hin; by apply elem_of_nil in Hin).
  intros [->|Hin]%elem_of_cons; [|by eapply IH].
  simpl. by apply bool_decide_eq_true.
Qed.

Section MoreOfOneCall.

Context {RegState : Type}.
Variable reg_Register : Collector → RegState → option error * RegState.
Variable reg_Unregister : Collector → RegState → bool * RegState.

Abbreviation call tid reg :=
  (run reg_Register reg_Unregister tid (RegisterDefaultServerMetricsWithRegisterer reg)).
Abbreviation Lawful := (LawfulRegistry reg_Register reg_Unregister).

(** What a call leaves, whatever its outcome: the world as it was when the
    call waits for the mutex, and otherwise the world of one of the paths. *)
Lemma call_world tid reg (w : World RegState) :
  (defaultServerMetricsPromRegistrationMu w = true ∧
   call tid reg w = Blocked w) ∨
  (defaultServerMetricsPromRegistrationMu w = false ∧
   ∃ r w', call tid reg w = Finished r w' ∧
           Path reg_Register reg_Unregister tid reg w r w').
Proof.
  destruct (defaultServerMetricsPromRegistrationMu w) eqn:Hmu.
  - left. split; [done|]. by apply run_held.
  - right. split; [done|]. by apply call_path.
Qed.

(** Property X1.  [RegisterDefaultServerMetricsWithRegisterer] against the function
    [registerInto]: on a held mutex the call waits and has changed nothing;
    on a free mutex it returns what [registerInto] gives, which is: the lock,
    the membership test, the instruments registered one at a time up to the
    first failure, then either the unregistration of those registered or the
    recording of the registry, and the unlock. *)
Theorem X1_call_refines_registerInto tid reg (w : World RegState) :
  call tid reg w =
  if defaultServerMetricsPromRegistrationMu w then Blocked w
  else
    let '(alreadyRegistered, err, w') :=
      registerInto reg_Register reg_Unregister tid reg w in
    Finished (alreadyRegistered, err) w'.
Proof.
  destruct (defaultServerMetricsPromRegistrationMu w) eqn:Hmu.
  - by apply run_held.
  - by apply run_RegisterDefaultServerMetricsWithRegisterer.
Qed.

(** Property X2.  A call on [reg], whatever its outcome, leaves the metric set and
    every other registry as they were, changes the record for no other
    registry, and makes its [Register] and [Unregister] calls on [reg]
    only. *)
Theorem X2_call_frame tid reg (w : World RegState) :
  let w' := worldOf (call tid reg w) in
  DefaultServerMetrics w' = DefaultServerMetrics w ∧
  (∀ r, r ≠ reg → registries w' r = registries w r) ∧
  (∀ r, r ≠ reg →
     (r ∈ defaultServerMetricsPromRegistration w' ↔
      r ∈ defaultServerMetricsPromRegistration w)) ∧
  ∃ evs, trace w' = trace w ++ evs ∧
         ∀ ev, ev ∈ evs → isRegistryCall ev = true → onRegistry reg ev = true.
Proof.
  intros w'. subst w'.
  destruct (call_world tid reg w) as [[_ Hrun]|(_ & r & w' & Hrun & Hpath)];
    rewrite Hrun; simpl.
  { repeat split; try done. exists []. split; [by rewrite app_nil_r|].
    intros ev Hin. by apply elem_of_nil in Hin. }
  inversion Hpath as [Hin|pre c post e bs w0 Hnin Hinstr Hlen Htr Hm Hrec Hmu' Hother _
                     |w0 Hnin Htr Hm Hrec Hmu' Hother _]; subst; simpl.
  - repeat split; try done. eexists. split; [done|].
    intros ev Hev. repeat (apply elem_of_cons in Hev as [->|Hev]; [done|]).
    by apply elem_of_nil in Hev.
  - repeat split; try done.
    + by rewrite Hrec.
    + by rewrite Hrec.
    + eexists. split; [exact Htr|]. intros ev Hev Hcall.
      rewrite !elem_of_app, !list_elem_of_singleton in Hev.
      destruct Hev as [-> | [Hev | [-> | [Hev | ->]]]]; try done.
      * by eapply onRegistry_ok.
      * simpl. by apply bool_decide_eq_true.
      * by eapply onRegistry_unregister.
  - repeat split; try done.
    + rewrite Hrec. set_solver.
    + rewrite Hrec. set_solver.
    + eexists. split; [exact Htr|]. intros ev Hev Hcall.
      rewrite !elem_of_app, !list_elem_of_singleton in Hev.
      destruct Hev as [-> | [Hev | ->]]; try done.
      by eapply onRegistry_ok.
Qed.

(** Property X3.  A call makes at most five [Register] calls and at most four
    [Unregister] calls (the slice [registeredMetrics] stays within its
    capacity of five).  The collectors it unregisters are collectors it
    registered itself, in the order it registered them, and it unregisters
    none unless one of its [Register] calls returned an error. *)
Theorem X3_call_bounds tid reg (w : World RegState) :
  let w' := worldOf (call tid reg w) in
  ∃ evs, trace w' = trace w ++ evs ∧
    length (registerCalls evs) ≤ 5 ∧
    length (unregisterCalls evs) ≤ 4 ∧
    unregisterCalls evs `prefix_of` (fst <$> registerCalls evs) ∧
    (∀ c, c ∈ unregisterCalls evs → (c, None) ∈ registerCalls evs) ∧
    (unregisterCalls evs ≠ [] → ∃ c e, (c, Some e) ∈ registerCalls evs).
Proof.
  intros w'. subst w'.
  destruct (call_world tid reg w) as [[_ Hrun]|(_ & r & w' & Hrun & Hpath)];
    rewrite Hrun; simpl.
  { exists []. rewrite app_nil_r. simpl. repeat split; try done; try lia.
    intros c Hc. by apply elem_of_nil in Hc. }
  inversion Hpath as [Hin|pre c post e bs w0 Hnin Hinstr Hlen Htr Hm Hrec Hmu' _ _
                     |w0 Hnin Htr Hm Hrec Hmu' _ _]; subst; simpl.
  - exists [EvLock tid; EvUnlock tid]. simpl. repeat split; try done; try lia.
    intros c Hc. by apply elem_of_nil in Hc.
  - pose proof (instruments_length (DefaultServerMetrics w)) as Hfive.
    rewrite Hinstr, length_app in Hfive. simpl in Hfive.
    eexists. split; [exact Htr|].
    rewrite !registerCalls_app, registerCalls_ok, registerCalls_unregister.
    rewrite !unregisterCalls_app, unregisterCalls_ok,
      unregisterCalls_unregister by done.
    cbn [registerCalls unregisterCalls app]. rewrite !app_nil_r.
    repeat split.
    + rewrite length_app, length_fmap. simpl. lia.
    + lia.
    + rewrite fmap_app, <- list_fmap_compose. simpl. rewrite list_fmap_id.
      by exists [c].
    + intros c0 Hc0. apply elem_of_app. left.
      apply list_elem_of_fmap. by exists c0.
    + intros _. exists c, e. apply elem_of_app. right. apply list_elem_of_here.
  - pose proof (instruments_length (DefaultServerMetrics w)) as Hfive.
    eexists. split; [exact Htr|].
    rewrite !registerCalls_app, registerCalls_ok.
    rewrite !unregisterCalls_app, unregisterCalls_ok.
    cbn [registerCalls unregisterCalls app]. rewrite !app_nil_r.
    repeat split; try done.
    + by rewrite length_fmap.
    + simpl. lia.
    + apply prefix_nil.
    + intros c Hc. by apply elem_of_nil in Hc.
Qed.

(** Property X4.  After a call that returns nil with [alreadyRegistered = false], the
    registry is recorded, the mutex is free, and a registry that keeps its
    contract holds every instrument of the metric set (four, or five with the
    histogram) and, besides them, exactly what it held before. *)
Theorem X4_success_registers_everything tid reg (w : World RegState) w' :
  call tid reg w = Finished (false, None) w' →
  reg ∈ defaultServerMetricsPromRegistration w' ∧
  (reg ∉ defaultServerMetricsPromRegistration w) ∧
  defaultServerMetricsPromRegistrationMu w' = false ∧
  4 ≤ length (instruments (DefaultServerMetrics w)) ≤ 5 ∧
  ∀ holds, Lawful holds →
    (∀ c, c ∈ instruments (DefaultServerMetrics w) → holds (registries w' reg) c) ∧
    (∀ c, c ∉ instruments (DefaultServerMetrics w) →
          (holds (registries w' reg) c ↔ holds (registries w reg) c)).
Proof.
  intros Hrun. apply call_finished in Hrun as [Hmu Hpath].
  inversion Hpath as [| |w0 Hnin Htr Hm Hrec Hmu' _ Hlaw]; subst.
  split; [rewrite Hrec; set_solver|]. split; [done|]. split; [done|]. split.
  - split; [|apply instruments_length].
    unfold instruments. rewrite length_app. simpl. lia.
  - intros holds L. split.
    + intros c Hc. apply (Hlaw holds L). by left.
    + intros c Hc. rewrite (Hlaw holds L). tauto.
Qed.

(** Property X5.  The loop of the deferred function: from index [i], with the
    iterations that remain up to the length of the slice, it calls
    [Unregister] once for each element from [i] on, in order, and stops at the
    end of the slice; on an empty slice it makes no call.  What [Unregister]
    returns is not looked at, and nothing but the registry [reg] and the trace
    changes. *)
Theorem X5_unregister_loop tid reg (l : list Collector) i (w : World RegState) :
  ∃ w' bs,
    run reg_Register reg_Unregister tid (unregisterFrom reg l (length l - i) i) w
      = Finished tt w' ∧
    length bs = length l - i ∧
    trace w' = trace w ++ zip_with (EvUnregister tid reg) (drop i l) bs ∧
    DefaultServerMetrics w' = DefaultServerMetrics w ∧
    defaultServerMetricsPromRegistration w' = defaultServerMetricsPromRegistration w ∧
    defaultServerMetricsPromRegistrationMu w' = defaultServerMetricsPromRegistrationMu w ∧
    (∀ r, r ≠ reg → registries w' r = registries w r) ∧
    (l = [] → w' = w).
Proof.
  rewrite (run_unregisterFrom reg_Register reg_Unregister tid reg l _ i w eq_refl).
  destruct (unregisterSeq_spec reg_Unregister tid reg (drop i l) w)
    as (Hother & bs & Hlen & Htr).
  destruct (unregisterSeq_frame reg_Unregister tid reg (drop i l) w)
    as (Hm & Hrec & Hmu).
  eexists _, bs. repeat split; try done.
  - by rewrite Hlen, length_drop.
  - intros ->. by rewrite drop_nil.
Qed.

(** Property X10.  What the results tell the caller: [alreadyRegistered] is true
    exactly when the registry was recorded before the call, the error is nil
    exactly when the registry is recorded after the call, and
    [alreadyRegistered = false] with a nil error exactly when this call has
    recorded it. *)
Theorem X10_results_report_the_record tid reg (w : World RegState) a err w' :
  call tid reg w = Finished (a, err) w' →
  (a = true ↔ reg ∈ defaultServerMetricsPromRegistration w) ∧
  (err = None ↔ reg ∈ defaultServerMetricsPromRegistration w') ∧
  (hasRegistered (a, err) = true ↔
     (reg ∉ defaultServerMetricsPromRegistration w) ∧
     reg ∈ defaultServerMetricsPromRegistration w').
Proof.
  intros Hrun. apply call_finished in Hrun as [Hmu Hpath].
  inversion Hpath as [Hin|pre c post e bs w0 Hnin Hinstr Hlen Htr Hm Hrec Hmu' _ _
                     |w0 Hnin Htr Hm Hrec Hmu' _ _]; subst; simpl.
  - repeat split; try done. by intros [? _].
  - rewrite Hrec. repeat split; try done. by intros [_ ?].
  - rewrite Hrec. repeat split; try done; set_solver.
Qed.

End MoreOfOneCall.

(** ** Uses one after the other *)

Section MoreOfSequences.

Context {RegState : Type}.
Variable reg_Register : Collector → RegState → option error * RegState.
Variable reg_Unregister : Collector → RegState → bool * RegState.

Abbreviation call tid reg :=
  (run reg_Register reg_Unregister tid (RegisterDefaultServerMetricsWithRegisterer reg)).
Abbreviation invoke tid i := (run reg_Register reg_Unregister tid (invocation i)).
Abbreviation invokeAll' := (invokeAll reg_Register reg_Unregister).

(** One use from a free mutex: it returns, the mutex is free again, the record
    has not shrunk, a registration has locked and unlocked once and a method
    not at all, and no call was made on a registry that was recorded. *)
Lemma invoke_free tid i (w : World RegState) :
  defaultServerMetricsPromRegistrationMu w = false →
  ∃ w' evs,
    invoke tid i w = Finished tt w' ∧
    defaultServerMetricsPromRegistrationMu w' = false ∧
    defaultServerMetricsPromRegistration w ⊆ defaultServerMetricsPromRegistration w' ∧
    trace w' = trace w ++ evs ∧
    length (filter isLock evs) = (if isRegistration (tid, i) then 1 else 0) ∧
    length (filter isUnlock evs) = (if isRegistration (tid, i) then 1 else 0) ∧
    (∀ reg, reg ∈ defaultServerMetricsPromRegistration w →
            ∀ ev, ev ∈ evs → onRegistry reg ev = false).
Proof.
  intros Hmu. destruct i as [method|reg0]; cbn [invocation isRegistration].
  { rewrite run_onDefaultServerMetrics. eexists _, []. simpl.
    rewrite app_nil_r. repeat split; try done.
    intros reg _ ev Hev. by apply elem_of_nil in Hev. }
  rewrite run_bind.
  destruct (call_path reg_Register reg_Unregister tid reg0 w Hmu)
    as (r & w' & Hrun & Hpath).
  rewrite Hrun. cbn [run mret prog_ret].
  assert (Hoff : ∀ reg r0 (cs : list Collector) ev, reg ≠ r0 →
            ev ∈ (registerOk tid r0 <$> cs) → onRegistry reg ev = false).
  { intros reg r0 cs ev Hne (c & -> & _)%list_elem_of_fmap. simpl.
    by apply bool_decide_eq_false. }
  assert (Hoff' : ∀ reg r0 (cs : list Collector) bs ev, reg ≠ r0 →
            ev ∈ zip_with (EvUnregister tid r0) cs bs → onRegistry reg ev = false).
  { intros reg r0 cs. induction cs as [|c cs IH]; intros [|b bs] ev Hne; simpl;
      try (intros Hin; by apply elem_of_nil in Hin).
    intros [->|Hin]%elem_of_cons; [|by eapply IH].
    simpl. by apply bool_decide_eq_false. }
  inversion Hpath as [Hin|pre c post e bs w0 Hnin Hinstr Hlen Htr Hm Hrec Hmu' _ _
                     |w0 Hnin Htr Hm Hrec Hmu' _ _]; subst.
  - exists (mkWorld (DefaultServerMetrics w) (defaultServerMetricsPromRegistration w)
              false (registries w) (trace w ++ [EvLock tid; EvUnlock tid])),
           [EvLock tid; EvUnlock tid].
    simpl. repeat split; try done.
    intros reg _ ev Hev. repeat (apply elem_of_cons in Hev as [->|Hev]; [done|]).
    by apply elem_of_nil in Hev.
  - exists w'. eexists. split; [done|]. split; [done|].
    split; [by rewrite Hrec|]. split; [exact Htr|].
    rewrite !list.filter_app, filter_isLock_ok, filter_isLock_unregister.
    rewrite filter_isUnlock_ok, filter_isUnlock_unregister.
    repeat split; try done.
    intros reg Hreg ev Hev.
    assert (reg ≠ reg0) as Hne by (intros ->; done).
    rewrite !elem_of_app, !list_elem_of_singleton in Hev.
    destruct Hev as [-> | [Hev | [-> | [Hev | ->]]]]; try done.
    + by eapply Hoff.
    + simpl. by apply bool_decide_eq_false.
    + by eapply Hoff'.
  - exists w'. eexists. split; [done|]. split; [done|].
    split; [rewrite Hrec; set_solver|]. split; [exact Htr|].
    rewrite !list.filter_app, filter_isLock_ok, filter_isUnlock_ok.
    repeat split; try done.
    intros reg Hreg ev Hev.
    assert (reg ≠ reg0) as Hne by (intros ->; done).
    rewrite !elem_of_app, !list_elem_of_singleton in Hev.
    destruct Hev as [-> | [Hev | ->]]; try done.
    by eapply Hoff.
Qed.


(** Property X7.  Once a registry is recorded it stays so: after any sequence of uses,
    methods such as [EnableHandlingTimeHistogram] among them, no [Register]
    and no [Unregister] call has been made on it, and a call on it returns
    [alreadyRegistered = true] with a nil error.  So an instrument added to
    the metric set after the registry was recorded is not registered into it
    by this function. *)
Theorem X7_recorded_registry_is_left_alone reg (invs : list (nat * Invocation))
    (w : World RegState) :
  defaultServerMetricsPromRegistrationMu w = false →
  reg ∈ defaultServerMetricsPromRegistration w →
  ∃ w' evs,
    invokeAll' invs w = Finished tt w' ∧
    trace w' = trace w ++ evs ∧
    (∀ ev, ev ∈ evs → onRegistry reg ev = false) ∧
    registries w' reg = registries w reg ∧
    ∀ tid, call tid reg w'
           = Finished (true, None)
               (mkWorld (DefaultServerMetrics w')
                  (defaultServerMetricsPromRegistration w') false (registries w')
                  (trace w' ++ [EvLock tid; EvUnlock tid])).
Proof.
  revert w. induction invs as [|[tid i] invs IH]; intros w Hmu Hin.
  { exists w, []. simpl. rewrite app_nil_r. repeat split; try done.
    - intros ev Hev. by apply elem_of_nil in Hev.
    - intros tid.
      destruct (call_path reg_Register reg_Unregister tid reg w Hmu)
        as (r & w1 & Hrun & Hpath).
      inversion Hpath; subst; done. }
  destruct (invoke_free tid i w Hmu)
    as (w1 & evs1 & Hrun & Hmu1 & Hsub1 & Htr1 & _ & _ & Hoff1).
  assert (registries w1 reg = registries w reg) as Hsame.
  { destruct i as [method|reg0]; cbn [invocation] in Hrun.
    - rewrite run_onDefaultServerMetrics in Hrun. by injection Hrun as <-.
    - rewrite run_bind in Hrun.
      destruct (call_path reg_Register reg_Unregister tid reg0 w Hmu)
        as (r & w2 & Hrun2 & Hpath).
      rewrite Hrun2 in Hrun. cbn [run mret prog_ret] in Hrun.
      injection Hrun as ->.
      inversion Hpath as [Hin0|pre c post e bs w0 Hnin Hinstr Hlen Htr Hm Hrec Hmu' Hother _
                         |w0 Hnin Htr Hm Hrec Hmu' Hother _]; subst; try done.
      + apply Hother. by intros ->.
      + apply Hother. by intros ->. }
  destruct (IH w1 Hmu1 (Hsub1 _ Hin)) as (w' & evs & Hrest & Htr & Hoff & Hregs & Hcall).
  exists w', (evs1 ++ evs). cbn [invokeAll]. rewrite Hrun.
  split; [done|]. split; [by rewrite Htr, Htr1, <- app_assoc|].
  split; [|split; [congruence | done]].
  intros ev [Hev|Hev]%elem_of_app; [by eapply Hoff1 | by apply Hoff].
Qed.

Lemma counters_instruments m c : c ∈ counters m → c ∈ instruments m.
Proof. unfold instruments. fold (counters m). intros Hc. apply elem_of_app. by left. Qed.

(** Property X11.  The record is sound under the uses of the package: if every
    recorded registry holds the four counters, this is still so after any
    sequence of uses whose methods leave the counters the collectors they
    were, for a registry that keeps its contract.  So a call that returns
    [alreadyRegistered = true] without looking at the registry is right about
    the counters. *)
Theorem X11_recorded_registries_hold_the_counters holds
    (invs : list (nat * Invocation)) (w w' : World RegState) :
  LawfulRegistry reg_Register reg_Unregister holds →
  methodsKeepCounters invs →
  recordSound holds w →
  invokeAll' invs w = Finished tt w' →
  recordSound holds w'.
Proof.
  intros L Hkeep Hsound Hrun.
  revert w Hkeep Hsound Hrun. induction invs as [|[tid i] invs IH];
    intros w Hkeep Hsound; cbn [invokeAll].
  { by intros [= <-]. }
  assert (methodsKeepCounters invs) as Hkeep'.
  { intros tid' method Hin. apply (Hkeep tid'). by apply elem_of_cons; right. }
  destruct i as [method|reg0]; cbn [invocation].
  - rewrite run_onDefaultServerMetrics. apply IH; [done|].
    intros reg c Hreg Hc. simpl in *.
    rewrite (Hkeep tid method) in Hc by apply list_elem_of_here.
    by apply Hsound.
  - rewrite run_bind.
    destruct (run reg_Register reg_Unregister tid
                (RegisterDefaultServerMetricsWithRegisterer reg0) w)
      as [[a err] w1|w1|w1] eqn:Hcall; [|done|done].
    cbn [run mret prog_ret]. apply IH; [done|].
    apply call_finished in Hcall as [Hmu Hpath].
    inversion Hpath as [Hin|pre c0 post e bs w0 Hnin Hinstr Hlen Htr Hm Hrec Hmu' Hother _
                       |w0 Hnin Htr Hm Hrec Hmu' Hother Hlaw]; subst.
    + intros reg c Hreg Hc. by apply Hsound.
    + intros reg c Hreg Hc. rewrite Hrec in Hreg. rewrite Hm in Hc.
      rewrite Hother by (by intros ->). by apply Hsound.
    + intros reg c Hreg Hc. rewrite Hm in Hc. rewrite Hrec in Hreg.
      destruct (decide (reg = reg0)) as [->|Hne].
      * apply (Hlaw holds L). left. by apply counters_instruments.
      * rewrite Hother by done. apply Hsound; [set_solver | done].
Qed.

End MoreOfSequences.

(** ** Two registries *)

Section MoreOfTwoRegistries.

Context {RegState : Type}.
Variable reg_Register : Collector → RegState → option error * RegState.
Variable reg_Unregister : Collector → RegState → bool * RegState.

Abbreviation call tid reg :=
  (run reg_Register reg_Unregister tid (RegisterDefaultServerMetricsWithRegisterer reg)).
Abbreviation registerSeq' := (registerSeq reg_Register).
Abbreviation unregisterSeq' := (unregisterSeq reg_Unregister).
Abbreviation registerInto' := (registerInto reg_Register reg_Unregister).

(** The registrations on [reg] look at the state of [reg] only. *)
Lemma registerSeq_local tid reg cs (w1 w2 : World RegState) registered err w1' :
  registries w1 reg = registries w2 reg →
  registerSeq' tid reg cs w1 = (registered, err, w1') →
  ∃ w2' evs,
    registerSeq' tid reg cs w2 = (registered, err, w2') ∧
    registries w2' reg = registries w1' reg ∧
    trace w1' = trace w1 ++ evs ∧ trace w2' = trace w2 ++ evs.
Proof.
  revert w1 w2 registered err w1'.
  induction cs as [|c cs IH]; intros w1 w2 registered err w1' Hsame; simpl.
  - intros [= <- <- <-]. exists w2, []. by rewrite !app_nil_r.
  - rewrite <- Hsame.
    destruct (reg_Register c (registries w1 reg)) as [[e|] s] eqn:Hc.
    + intros [= <- <- <-]. eexists _, _. split; [done|]. simpl.
      by rewrite !fn_lookup_insert.
    + destruct (registerSeq _ tid reg cs (setRegistry reg s _ w1))
        as [[registered0 err0] w0] eqn:Hrest.
      intros [= <- <- <-].
      assert (registries (setRegistry reg s (EvRegister tid reg c None) w1) reg
              = registries (setRegistry reg s (EvRegister tid reg c None) w2) reg)
        as Hsame' by (simpl; by rewrite !fn_lookup_insert).
      destruct (IH _ _ _ _ _ Hsame' Hrest)
        as (w2' & evs & Hseq2 & Hregs & Htr1 & Htr2).
      exists w2', (EvRegister tid reg c None :: evs). rewrite Hseq2.
      split; [done|]. split; [done|].
      rewrite Htr1, Htr2. simpl. by rewrite <- !app_assoc.
Qed.

Lemma unregisterSeq_local tid reg cs (w1 w2 : World RegState) :
  registries w1 reg = registries w2 reg →
  registries (unregisterSeq' tid reg cs w2) reg
    = registries (unregisterSeq' tid reg cs w1) reg ∧
  ∃ evs, trace (unregisterSeq' tid reg cs w1) = trace w1 ++ evs ∧
         trace (unregisterSeq' tid reg cs w2) = trace w2 ++ evs.
Proof.
  revert w1 w2. induction cs as [|c cs IH]; intros w1 w2 Hsame; simpl.
  - split; [done|]. exists []. by rewrite !app_nil_r.
  - rewrite <- Hsame. destruct (reg_Unregister c (registries w1 reg)) as [b s].
    assert (registries (setRegistry reg s (EvUnregister tid reg c b) w1) reg
            = registries (setRegistry reg s (EvUnregister tid reg c b) w2) reg)
      as Hsame' by (simpl; by rewrite !fn_lookup_insert).
    destruct (IH _ _ Hsame') as (Hregs & evs & Htr1 & Htr2).
    split; [done|]. exists (EvUnregister tid reg c b :: evs).
    rewrite Htr1, Htr2. simpl. by rewrite <- !app_assoc.
Qed.

(** A call on [reg] looks at the metric set, at whether [reg] is recorded and
    at the state of [reg], and at nothing else. *)
Lemma registerInto_local tid reg (w1 w2 : World RegState) a err w1' :
  DefaultServerMetrics w1 = DefaultServerMetrics w2 →
  (reg ∈ defaultServerMetricsPromRegistration w1 ↔
   reg ∈ defaultServerMetricsPromRegistration w2) →
  registries w1 reg = registries w2 reg →
  registerInto' tid reg w1 = (a, err, w1') →
  ∃ w2' evs,
    registerInto' tid reg w2 = (a, err, w2') ∧
    registries w2' reg = registries w1' reg ∧
    trace w1' = trace w1 ++ evs ∧ trace w2' = trace w2 ++ evs.
Proof.
  intros Hm Hrec Hsame. unfold registerInto. rewrite <- Hm.
  rewrite (bool_decide_ext _ _ Hrec). case_bool_decide as Hin.
  { intros [= <- <- <-]. eexists _, [EvLock tid; EvUnlock tid].
    split; [done|]. simpl. by rewrite <- !app_assoc. }
  destruct (registerSeq _ tid reg _ (setMu true (EvLock tid) w1))
    as [[registered err0] w0] eqn:Hseq.
  destruct (registerSeq_local tid reg _ (setMu true (EvLock tid) w1)
              (setMu true (EvLock tid) w2) _ _ _ Hsame Hseq)
    as (w2' & evs & Hseq2 & Hregs & Htr1 & Htr2).
  rewrite Hseq2. destruct err0 as [e|]; intros [= <- <- <-].
  - destruct (unregisterSeq_local tid reg registered w0 w2' (eq_sym Hregs))
      as (Hregs' & evs' & Htr1' & Htr2').
    eexists _, ([EvLock tid] ++ evs ++ evs' ++ [EvUnlock tid]).
    split; [done|]. split; [done|]. simpl.
    rewrite Htr1', Htr2', Htr1, Htr2. simpl. by rewrite <- !app_assoc.
  - eexists _, ([EvLock tid] ++ evs ++ [EvUnlock tid]).
    split; [done|]. split; [done|]. simpl.
    rewrite Htr1, Htr2. simpl. by rewrite <- !app_assoc.
Qed.

Lemma call_registerInto tid reg (w : World RegState) a err w' :
  call tid reg w = Finished (a, err) w' →
  registerInto' tid reg w = (a, err, w').
Proof.
  intros Hrun. pose proof Hrun as [Hmu _]%call_finished.
  rewrite run_RegisterDefaultServerMetricsWithRegisterer in Hrun by done.
  destruct (registerInto _ _ tid reg w) as [[a0 err0] w0]. by injection Hrun as -> -> ->.
Qed.

Lemma registerInto_call tid reg (w : World RegState) a err w' :
  defaultServerMetricsPromRegistrationMu w = false →
  registerInto' tid reg w = (a, err, w') →
  call tid reg w = Finished (a, err) w'.
Proof.
  intros Hmu Hinto.
  rewrite run_RegisterDefaultServerMetricsWithRegisterer by done. by rewrite Hinto.
Qed.

(** What every path leaves outside the registry it is called on. *)
Lemma path_frame tid reg (w : World RegState) r w' :
  Path reg_Register reg_Unregister tid reg w r w' →
  DefaultServerMetrics w' = DefaultServerMetrics w ∧
  defaultServerMetricsPromRegistrationMu w' = false ∧
  (∀ r', r' ≠ reg → registries w' r' = registries w r') ∧
  defaultServerMetricsPromRegistration w'
    = (if hasRegistered r then {[reg]} ∪ defaultServerMetricsPromRegistration w
       else defaultServerMetricsPromRegistration w).
Proof. intros Hpath. inversion Hpath; subst; simpl; done. Qed.

(** Property X8.  Registries are independent: from a free mutex, a call on one registry
    and a call on another give the same two results in either order, and the
    two orders end with the same metric set, the same record, the mutex free,
    every registry in the same state, and the same calls in the trace (in the
    other order). *)
Theorem X8_calls_on_distinct_registries_commute t1 t2 reg1 reg2
    (w : World RegState) :
  reg1 ≠ reg2 →
  defaultServerMetricsPromRegistrationMu w = false →
  ∃ a1 a2 wa wab wb wba,
    call t1 reg1 w = Finished a1 wa ∧ call t2 reg2 wa = Finished a2 wab ∧
    call t2 reg2 w = Finished a2 wb ∧ call t1 reg1 wb = Finished a1 wba ∧
    DefaultServerMetrics wab = DefaultServerMetrics wba ∧
    defaultServerMetricsPromRegistration wab
      = defaultServerMetricsPromRegistration wba ∧
    defaultServerMetricsPromRegistrationMu wab = false ∧
    defaultServerMetricsPromRegistrationMu wba = false ∧
    (∀ r, registries wab r = registries wba r) ∧
    trace wab ≡ₚ trace wba.
Proof.
  intros Hne Hmu.
  destruct (call_path reg_Register reg_Unregister t1 reg1 w Hmu)
    as ([a1 e1] & wa & Hrun1 & Hpath1).
  destruct (path_frame _ _ _ _ _ Hpath1) as (Hm1 & Hmu1 & Hother1 & Hrec1).
  destruct (call_path reg_Register reg_Unregister t2 reg2 wa Hmu1)
    as ([a2 e2] & wab & Hrun2 & Hpath2).
  destruct (path_frame _ _ _ _ _ Hpath2) as (Hm2 & Hmu2 & Hother2 & Hrec2).
  (* the second call, moved to the front *)
  destruct (registerInto_local t2 reg2 wa w a2 e2 wab Hm1) as
    (wb & ev2 & Hinto2 & Hregs2 & Htr2 & Htr2').
  { rewrite Hrec1. destruct (hasRegistered (a1, e1)); set_solver. }
  { by apply Hother1. }
  { by apply call_registerInto. }
  pose proof (registerInto_call _ _ _ _ _ _ Hmu Hinto2) as Hrun2'.
  pose proof Hrun2' as [_ Hpath2']%call_finished.
  destruct (path_frame _ _ _ _ _ Hpath2') as (Hm2' & Hmu2' & Hother2' & Hrec2').
  (* the first call, moved behind it *)
  destruct (registerInto_local t1 reg1 w wb a1 e1 wa (eq_sym Hm2')) as
    (wba & ev1 & Hinto1 & Hregs1 & Htr1 & Htr1').
  { rewrite Hrec2'. destruct (hasRegistered (a2, e2)); set_solver. }
  { symmetry. by apply Hother2'. }
  { by apply call_registerInto. }
  pose proof (registerInto_call _ _ _ _ _ _ Hmu2' Hinto1) as Hrun1'.
  pose proof Hrun1' as [_ Hpath1']%call_finished.
  destruct (path_frame _ _ _ _ _ Hpath1') as (Hm1' & Hmu1' & Hother1' & Hrec1').
  exists (a1, e1), (a2, e2), wa, wab, wb, wba.
  repeat split; try done.
  - congruence.
  - rewrite Hrec2, Hrec1, Hrec1', Hrec2'.
    destruct (hasRegistered (a1, e1)), (hasRegistered (a2, e2)); set_solver.
  - intros r. destruct (decide (r = reg1)) as [->|Hr1].
    + rewrite Hother2 by done. done.
    + destruct (decide (r = reg2)) as [->|Hr2].
      * rewrite Hother1' by done. done.
      * rewrite Hother2, Hother1, Hother1', Hother2' by done. done.
  - rewrite Htr2, Htr1, Htr1', Htr2', <- !app_assoc.
    apply Permutation_app_head, Permutation_app_comm.
Qed.

End MoreOfTwoRegistries.

(** ** Two calls at once, to the end *)

Section MoreOfTwoCalls.

Context {RegState : Type}.
Variable reg_Register : Collector → RegState → option error * RegState.
Variable reg_Unregister : Collector → RegState → bool * RegState.

Abbreviation run' := (run reg_Register reg_Unregister).
Abbreviation tstep' := (tstep reg_Register reg_Unregister).
Abbreviation steps := (psteps reg_Register reg_Unregister).
Abbreviation mu := (@defaultServerMetricsPromRegistrationMu RegState).

(** A thread in its region runs to its result and frees the mutex. *)
Lemma inRegion_run {A : Type} tid (p : prog A) (w : World RegState) :
  inRegion p → mu w = true →
  ∃ a w', run' tid p w = Finished a w' ∧ mu w' = false.
Proof.
  intros Hin. revert w. induction Hin as [a|reg k _ IH|reg k _ IH|k _ IH|m k _ IH
                                         |reg c k _ IH|reg c k _ IH];
    intros w Hmu; simpl.
  - rewrite Hmu. by eexists _, _.
  - apply IH, Hmu.
  - apply IH, Hmu.
  - apply IH, Hmu.
  - apply IH, Hmu.
  - destruct (reg_Register c (registries w reg)) as [err s]. apply IH, Hmu.
  - destruct (reg_Unregister c (registries w reg)) as [b s]. apply IH, Hmu.
Qed.

Lemma idle_run {A : Type} tid (p : prog A) (w : World RegState) :
  idle p → mu w = false →
  ∃ a w', run' tid p w = Finished a w' ∧ mu w' = false.
Proof.
  intros [Hone|[a ->]] Hmu; [|by exists a, w].
  destruct Hone as [k Hk]. simpl. rewrite Hmu. by apply inRegion_run.
Qed.

Lemma run_psteps_right {A : Type} T1 t2 (p2 : prog A) (w w' : World RegState) a :
  run' t2 p2 w = Finished a w' →
  steps (w, T1, (t2, p2)) (w', T1, (t2, Ret a)).
Proof.
  intros Hrun.
  apply (psteps_swap _ _ (w, (t2, p2), T1) (w', (t2, Ret a), T1)).
  by apply run_psteps_left.
Qed.

Lemma inRegion_no_fault {A : Type} tid (p : prog A) (w : World RegState) :
  inRegion p → mu w = true → tstep' tid p w ≠ SFault.
Proof.
  intros Hin Hmu. destruct Hin; simpl; try done.
  - by rewrite Hmu.
  - by destruct (reg_Register c (registries w reg)).
  - by destruct (reg_Unregister c (registries w reg)).
Qed.

Lemma idle_no_fault {A : Type} tid (p : prog A) (w : World RegState) :
  idle p → tstep' tid p w ≠ SFault.
Proof.
  intros [Hone|[a ->]]; [|done]. destruct Hone. simpl. by destruct (mu w).
Qed.


End MoreOfTwoCalls.

(** ** On concrete calls *)

(** A successful call on an empty registry with the histogram enabled. *)
Lemma X4_witness_five_instruments :
  let w := Fixture.world Fixture.metrics5 ∅ [] in
  let w' := Fixture.after (Fixture.call 0 Fixture.reg1 w) in
  Fixture.call 0 Fixture.reg1 w = Finished (false, None) w' ∧
  length (instruments (DefaultServerMetrics w)) = 5 ∧
  (Fixture.reg1 ∈ defaultServerMetricsPromRegistration w') ∧
  (∀ c, c ∈ instruments Fixture.metrics5 → c ∈ registries w' Fixture.reg1).
Proof.
  intros w w'.
  assert (Fixture.call 0 Fixture.reg1 w = Finished (false, None) w') as Hrun
    by (vm_compute; reflexivity).
  destruct (X4_success_registers_everything test_Register test_Unregister
              0 Fixture.reg1 w w' Hrun) as (Hin & _ & _ & _ & Hlaw).
  destruct (Hlaw _ test_registry_lawful) as [Hall _].
  split; [exact Hrun|]. split; [reflexivity|]. split; [exact Hin | exact Hall].
Defined.


(** The histogram enabled after the registration: the registry keeps its four
    collectors, and the next call returns [alreadyRegistered = true]. *)
Lemma X7_witness_histogram_enabled_late :
  let w := Fixture.after (Fixture.call 0 Fixture.reg1
                            (Fixture.world Fixture.metrics4 ∅ [])) in
  let invs :=
    [ (0, InvokeMethod (ServerMetrics_EnableHandlingTimeHistogram
                          [WithHistogramBuckets Fixture.buckets]));
      (0, InvokeRegistration Fixture.reg1) ] in
  defaultServerMetricsPromRegistrationMu w = false ∧
  (Fixture.reg1 ∈ defaultServerMetricsPromRegistration w) ∧
  ∃ w',
    invokeAll test_Register test_Unregister invs w = Finished tt w' ∧
    serverHandledHistogramEnabled (DefaultServerMetrics w') = true ∧
    registries w' Fixture.reg1 = counters Fixture.metrics4 ∧
    ∃ w'', Fixture.call 1 Fixture.reg1 w' = Finished (true, None) w''.
Proof.
  intros w invs.
  assert (defaultServerMetricsPromRegistrationMu w = false) as Hmu by reflexivity.
  assert (Fixture.reg1 ∈ defaultServerMetricsPromRegistration w) as Hin.
  { apply (bool_decide_unpack _). vm_compute. exact I. }
  destruct (X7_recorded_registry_is_left_alone test_Register test_Unregister
              Fixture.reg1 invs w Hmu Hin)
    as (w' & evs & Hrun & Htr & Hoff & Hregs & Hcall).
  split; [exact Hmu|]. split; [exact Hin|]. exists w'.
  split; [exact Hrun|]. split.
  - assert (w' = worldOf (invokeAll test_Register test_Unregister invs w)) as Hw
      by (by rewrite Hrun).
    rewrite Hw. vm_compute. reflexivity.
  - split; [rewrite Hregs; vm_compute; reflexivity|].
    eexists. apply (Hcall 1).
Defined.

(** Two registries, one of them with a name taken: the call on it fails and
    the call on the other succeeds, in either order. *)
Lemma X8_witness_two_registries :
  let w := mkWorld Fixture.metrics5 ∅ false
             (λ r, if decide (r = Fixture.reg1) then [Fixture.foreign] else []) [] in
  Fixture.reg1 ≠ Fixture.reg2 ∧
  defaultServerMetricsPromRegistrationMu w = false ∧
  ∃ a1 a2 wa wab wb wba,
    Fixture.call 1 Fixture.reg1 w = Finished a1 wa ∧
    Fixture.call 2 Fixture.reg2 wa = Finished a2 wab ∧
    Fixture.call 2 Fixture.reg2 w = Finished a2 wb ∧
    Fixture.call 1 Fixture.reg1 wb = Finished a1 wba ∧
    defaultServerMetricsPromRegistration wab
      = defaultServerMetricsPromRegistration wba ∧
    (∀ r, registries wab r = registries wba r) ∧
    trace wab ≡ₚ trace wba.
Proof.
  intros w.
  assert (Fixture.reg1 ≠ Fixture.reg2) as Hne by done.
  assert (defaultServerMetricsPromRegistrationMu w = false) as Hmu by reflexivity.
  destruct (X8_calls_on_distinct_registries_commute test_Register test_Unregister
              1 2 Fixture.reg1 Fixture.reg2 w Hne Hmu)
    as (a1 & a2 & wa & wab & wb & wba & H1 & H2 & H3 & H4 & _ & Hrec & _ & _ & Hregs & Htr).
  split; [exact Hne|]. split; [exact Hmu|].
  exists a1, a2, wa, wab, wb, wba.
  split; [exact H1|]. split; [exact H2|]. split; [exact H3|]. split; [exact H4|].
  split; [exact Hrec|]. split; [exact Hregs | exact Htr].
Defined.


(** A call that fails: the error is not nil and the registry is not
    recorded. *)
Lemma X10_witness_failed_call :
  let w := Fixture.world Fixture.metrics5 ∅ [Fixture.foreign] in
  let w' := Fixture.after (Fixture.call 0 Fixture.reg1 w) in
  Fixture.call 0 Fixture.reg1 w
    = Finished (false, Some "duplicate metrics collector registration attempted") w' ∧
  (Fixture.reg1 ∉ defaultServerMetricsPromRegistration w').
Proof.
  intros w w'.
  assert (Fixture.call 0 Fixture.reg1 w = Finished
            (false, Some "duplicate metrics collector registration attempted") w')
    as Hrun by (vm_compute; reflexivity).
  destruct (X10_results_report_the_record test_Register test_Unregister
              0 Fixture.reg1 w _ _ w' Hrun) as (_ & Herr & _).
  split; [exact Hrun|]. intros Hin. by apply Herr in Hin.
Defined.

(** The record after a successful registration, the histogram enabled and a
    second call: the recorded registry holds the four counters. *)
Lemma X11_witness_sound_record :
  let w := Fixture.world Fixture.metrics4 ∅ [] in
  let invs :=
    [ (0, InvokeRegistration Fixture.reg1);
      (0, InvokeMethod (ServerMetrics_EnableHandlingTimeHistogram
                          [WithHistogramBuckets Fixture.buckets]));
      (1, InvokeRegistration Fixture.reg1) ] in
  let w' := worldOf (invokeAll test_Register test_Unregister invs w) in
  invokeAll test_Register test_Unregister invs w = Finished tt w' ∧
  elements (defaultServerMetricsPromRegistration w') = [Fixture.reg1] ∧
  recordSound (λ s c, c ∈ s) w'.
Proof.
  intros w invs w'.
  assert (invokeAll test_Register test_Unregister invs w = Finished tt w') as Hrun
    by (vm_compute; reflexivity).
  assert (methodsKeepCounters invs) as Hkeep.
  { intros tid method Hin m.
    apply elem_of_cons in Hin as [[=]|Hin].
    apply elem_of_cons in Hin as [[= -> ->]|Hin].
    - unfold ServerMetrics_EnableHandlingTimeHistogram.
      by destruct (serverHandledHistogramEnabled m).
    - apply elem_of_cons in Hin as [[=]|Hin]. by apply elem_of_nil in Hin. }
  assert (recordSound (λ (s : TestRegistry) c, c ∈ s) w) as Hsound.
  { intros reg c Hreg. simpl in Hreg. by apply not_elem_of_empty in Hreg. }
  pose proof (X11_recorded_registries_hold_the_counters test_Register test_Unregister
                _ invs w w' test_registry_lawful Hkeep Hsound Hrun) as Hsound'.
  split; [exact Hrun|]. split; [vm_compute; reflexivity | exact Hsound'].
Defined.
